(** * AccessibleMap: the pan/zoom viewport, marker store, tree augmenter
      and export pipeline of [src/components/AccessibleMap.tsx]

    The component keeps its data in React state cells.  A handler is
    embedded as a function from the cells as they are when the event is
    handled to the cells after its updates are applied.  Clicks, keys
    and pointer events are taken to be handled in the render that
    follows the previous input.  Wheel events are not: several of them
    can be handled by the handler of one render, and the wheel handler
    reads the zoom from the closure of that render while it reads the
    pan through the updater it passes to [setPan].  [onWheel] therefore
    takes the zoom of its render as an argument of its own, and the
    input [Wheels] carries all the wheel events of one render.

    JavaScript numbers are embedded as rationals [Q]: products,
    quotients, [Math.min] and [Math.max] are computed exactly, where the
    source rounds to doubles.  The decimal constants of the source are
    the rationals they denote ([1.2] is [12/10], [1 / 1.1] is [10/11]).
    The properties below are bounds, or equations between a cell and the
    expression the source computes for it; none relies on an algebraic
    identity that rounding would break, except where a statement says
    that it is about exact arithmetic. *)

From Stdlib Require Import QArith Qminmax Qround Qabs Lqa ZArith Lia.
From Stdlib Require Import String Ascii DecimalString DecimalZ DecimalNat List.
From stdpp Require Import base gmap strings.
Import ListNotations.

Set Warnings "-register-all".
Local Open Scope Q_scope.

(* ===================================================================== *)
(** ** JavaScript primitives used by the component *)
(* ===================================================================== *)

Module JS.

(** [a < b] on numbers. *)
Definition lt (a b : Q) : bool :=
  match a ?= b with Lt => true | _ => false end.

(** [Math.min(a, b)] and [Math.max(a, b)]. *)
Definition min (a b : Q) : Q := Qmin a b.
Definition max (a b : Q) : Q := Qmax a b.

(** [Math.round(v)]: the nearest integer, halves going up. *)
Definition round (v : Q) : Z := Qfloor (v + 1 / 2).

(** [`${n}`] for a non-negative integer such as an array length. *)
Definition showNat (n : nat) : string :=
  NilEmpty.string_of_uint (Nat.to_uint n).

(** [`${t}`] for an integer such as the reading of [Date.now()]. *)
Definition showInt (t : Z) : string :=
  NilZero.string_of_int (Z.to_int t).

(** One character of [String.prototype.toLowerCase] on ASCII letters. *)
Definition lowerAscii (c : ascii) : ascii :=
  let n := nat_of_ascii c in
  if (Nat.leb 65 n && Nat.leb n 90)%bool then ascii_of_nat (n + 32) else c.

Fixpoint toLowerCase (s : string) : string :=
  match s with
  | EmptyString => EmptyString
  | String c rest => String (lowerAscii c) (toLowerCase rest)
  end.

(** Truthiness of a string: only the empty string is falsy. *)
Definition truthy (s : string) : bool :=
  match s with EmptyString => false | String _ _ => true end.

End JS.

(* ===================================================================== *)
(** ** Data model *)
(* ===================================================================== *)

(** [{ x: number; y: number }]: the pan offset and the drag origin. *)
Module Point.
Record t : Type := mk { x : Q; y : Q }.

(** Equality of the two coordinates as numbers. *)
Definition eqv (p q : t) : Prop := x p == x q /\ y p == y q.
End Point.

(** [type Marker = { id: string; x: number; y: number; name: string }]. *)
Module Marker.
Record t : Type := mk { id : string; x : Q; y : Q; name : string }.
End Marker.

(** The state cells of the component ([useState] and the [panStart] ref). *)
Record State : Type := mkState {
  zoom : Q;
  pan : Point.t;
  isPanning : bool;
  panStart : option Point.t;
  ariaMessage : string;
  selectedRegion : option string;
  markers : list Marker.t;
  safeMode : bool
}.

(** The state of a freshly mounted component. *)
Definition initialState : State :=
  {| zoom := 1;
     pan := Point.mk 0 0;
     isPanning := false;
     panStart := None;
     ariaMessage := "";
     selectedRegion := None;
     markers := [];
     safeMode := true |}.

(** The setters returned by [useState]; [safeMode] has none. *)
Definition setZoom (z : Q) (s : State) : State :=
  mkState z (pan s) (isPanning s) (panStart s) (ariaMessage s)
          (selectedRegion s) (markers s) (safeMode s).

Definition setPan (p : Point.t) (s : State) : State :=
  mkState (zoom s) p (isPanning s) (panStart s) (ariaMessage s)
          (selectedRegion s) (markers s) (safeMode s).

Definition setIsPanning (b : bool) (s : State) : State :=
  mkState (zoom s) (pan s) b (panStart s) (ariaMessage s)
          (selectedRegion s) (markers s) (safeMode s).

(** Assignment to [panStart.current]. *)
Definition setPanStart (o : option Point.t) (s : State) : State :=
  mkState (zoom s) (pan s) (isPanning s) o (ariaMessage s)
          (selectedRegion s) (markers s) (safeMode s).

Definition setAriaMessage (m : string) (s : State) : State :=
  mkState (zoom s) (pan s) (isPanning s) (panStart s) m
          (selectedRegion s) (markers s) (safeMode s).

Definition setSelectedRegion (r : option string) (s : State) : State :=
  mkState (zoom s) (pan s) (isPanning s) (panStart s) (ariaMessage s)
          r (markers s) (safeMode s).

Definition setMarkers (ms : list Marker.t) (s : State) : State :=
  mkState (zoom s) (pan s) (isPanning s) (panStart s) (ariaMessage s)
          (selectedRegion s) ms (safeMode s).

(** The zoom bounds the handlers clamp to. *)
Definition zoomInRange (z : Q) : Prop := 0.2 <= z /\ z <= 5.

(* ===================================================================== *)
(** ** Viewport handlers *)
(* ===================================================================== *)

(** The fields of the DOM events the handlers read. *)
Record MouseEvent : Type := mkMouse { clientX : Q; clientY : Q }.

Record WheelEvent : Type :=
  mkWheel { wheelX : Q; wheelY : Q; deltaY : Q }.

(** The fields of [getBoundingClientRect()] the component reads. *)
Record DOMRect : Type :=
  mkRect { left : Q; top : Q; width : Q; height : Q }.

Definition handleZoomIn (s : State) : State :=
  let nz := JS.min 5 (zoom s * 1.2) in
  setZoom nz (setAriaMessage "Zoom avant" s).

Definition handleZoomOut (s : State) : State :=
  let nz := JS.max 0.2 (zoom s / 1.2) in
  setZoom nz (setAriaMessage "Zoom arrière" s).

(** [onKeyDownContainer]; [e.preventDefault()] leaves the state alone. *)
Definition onKeyDownContainer (key : string) (s : State) : State :=
  let step := 20 in
  if (String.eqb key "+" || String.eqb key "=")%bool then handleZoomIn s
  else if (String.eqb key "-" || String.eqb key "_")%bool then handleZoomOut s
  else if String.eqb key "ArrowLeft" then
    setPan (Point.mk (Point.x (pan s) + step) (Point.y (pan s))) s
  else if String.eqb key "ArrowRight" then
    setPan (Point.mk (Point.x (pan s) - step) (Point.y (pan s))) s
  else if String.eqb key "ArrowUp" then
    setPan (Point.mk (Point.x (pan s)) (Point.y (pan s) + step)) s
  else if String.eqb key "ArrowDown" then
    setPan (Point.mk (Point.x (pan s)) (Point.y (pan s) - step)) s
  else s.

Definition onMouseDown (e : MouseEvent) (s : State) : State :=
  setPanStart
    (Some (Point.mk (clientX e - Point.x (pan s))
                    (clientY e - Point.y (pan s))))
    (setIsPanning true s).

Definition onMouseMove (e : MouseEvent) (s : State) : State :=
  match isPanning s, panStart s with
  | true, Some o =>
      setPan (Point.mk (clientX e - Point.x o) (clientY e - Point.y o)) s
  | _, _ => s
  end.

Definition onMouseUp (s : State) : State :=
  setPanStart None (setIsPanning false s).

Definition onMouseLeave (s : State) : State :=
  setPanStart None (setIsPanning false s).

(** The scale factor and the clamped zoom computed by [onWheel]. *)
Definition wheelScaleFactor (dY : Q) : Q :=
  if JS.lt dY 0 then 1.1 else 1 / 1.1.

Definition wheelNewZoom (z dY : Q) : Q :=
  JS.min 5 (JS.max 0.2 (z * wheelScaleFactor dY)).

(** [onWheel]; [container] is [containerRef.current] measured, [None]
    when the ref is not attached.  [zoomSeen] is the [zoom] in the
    closure of the handler, that of the render it belongs to; the pan
    is the argument of the updater given to [setPan], the pan cell as
    it is when the event is handled. *)
Definition onWheel (container : option DOMRect) (e : WheelEvent)
    (zoomSeen : Q) (s : State) : State :=
  match container with
  | None => s
  | Some rect =>
      let cursorX := wheelX e - left rect in
      let cursorY := wheelY e - top rect in
      let newZoom := wheelNewZoom zoomSeen (deltaY e) in
      let k := newZoom / zoomSeen in
      let p := pan s in
      setAriaMessage (if JS.lt (deltaY e) 0 then "Zoom avant" else "Zoom arrière")
        (setZoom newZoom
           (setPan (Point.mk (cursorX - k * (cursorX - Point.x p))
                             (cursorY - k * (cursorY - Point.y p))) s))
  end.

(** The wheel events handled by the handler of one render, in order,
    each with the container as measured when it is handled: all of them
    see the zoom of that render. *)
Definition onWheels (inputs : list (option DOMRect * WheelEvent))
    (s : State) : State :=
  fold_left (fun acc input => onWheel (fst input) (snd input) (zoom s) acc)
            inputs s.

(** [handleSelect], the selection callback given to the augmenter. *)
Definition handleSelect (name : string) (s : State) : State :=
  setAriaMessage (name ++ " sélectionné") (setSelectedRegion (Some name) s).

(* ===================================================================== *)
(** ** Marker store *)
(* ===================================================================== *)

(** [viewBox.baseVal] of the live [<svg>], read outside safe mode. *)
Record ViewBox : Type :=
  mkViewBox { vbX : Q; vbY : Q; vbWidth : Q; vbHeight : Q }.

(** [addMarkerAtCenter]; [now] is the reading of [Date.now()] and [svg]
    the view box of [containerRef.current?.querySelector("svg")], [None]
    when there is no such element. *)
Definition addMarkerAtCenter (now : Z) (svg : option ViewBox)
    (s : State) : State :=
  if safeMode s then
    let id := ("m-" ++ JS.showInt now)%string in
    let name := ("Marqueur " ++ JS.showNat (length (markers s) + 1))%string in
    let x := 800 / 2 in
    let y := 400 / 2 in
    setAriaMessage (name ++ " ajouté")
      (setMarkers (markers s ++ [Marker.mk id x y name]) s)
  else
    match svg with
    | None => s
    | Some vb =>
        let id := ("m-" ++ JS.showInt now)%string in
        let name :=
          ("Marqueur " ++ JS.showNat (length (markers s) + 1))%string in
        let x := vbX vb + vbWidth vb / 2 in
        let y := vbY vb + vbHeight vb / 2 in
        setAriaMessage (name ++ " ajouté")
          (setMarkers (markers s ++ [Marker.mk id x y name]) s)
    end.

(** The marker the safe-mode branch builds when the store holds [k]
    markers and the clock reads [t]. *)
Definition built (k : nat) (t : Z) : Marker.t :=
  Marker.mk ("m-" ++ JS.showInt t) (800 / 2) (400 / 2)
            ("Marqueur " ++ JS.showNat (k + 1)).

(** [addMarkerAtCenter] pressed once per clock reading, in order. *)
Definition addMarkers (clock : list Z) (s : State) : State :=
  fold_left (fun acc now => addMarkerAtCenter now None acc) clock s.

(* ===================================================================== *)
(** ** Localisation *)
(* ===================================================================== *)

(** [useIntl()]: [formatMessage] maps a default message and the values
    of its placeholders to the text of the active locale. *)
Record Intl : Type :=
  mkIntl { formatMessage : string -> list (string * string) -> string }.

(** The locale of the source text: every message is its default text. *)
Definition sourceLocale : Intl := mkIntl (fun msg _ => msg).

(* ===================================================================== *)
(** ** Export pipeline *)
(* ===================================================================== *)

Module ExportIO.

(** What an [Image] is loaded from. *)
Inductive ImageSource : Type :=
| WorldDataUrl
| SvgObjectUrl (svgWidth svgHeight : Q).

(** Calls on the 2D context, in the order they are made. *)
Inductive CanvasOp : Type :=
| ClearRect (cx cy cw ch : Q)
| Save
| Translate (tx ty : Q)
| Scale (sx sy : Q)
| DrawImage (src : ImageSource) (dx dy dw dh : Q)
| Restore.

(** The image encoded by [canvas.toDataURL("image/png", 1.0)]: the
    pixel size of the canvas and what was drawn on it. *)
Record Png : Type :=
  mkPng { pixelWidth : Z; pixelHeight : Z; drawn : list CanvasOp }.

(** Calls that reach outside the component. *)
Inductive Effect : Type :=
| SerializeSvg (stampedWidth stampedHeight : Q)
| CreateObjectURL
| RevokeObjectURL
| Upload (data thumbnail : Png)
| AddElement (altText : string).

Inductive Exn : Type :=
| ImageLoadError
| CanvasNotSupported
| EncodeError
| UploadRejected
| AddElementRejected.

(** What the browser and the host answer during one export. *)
Record Env : Type := mkEnv {
  container : option (DOMRect * option ViewBox);
  imageDecodes : bool;
  context2d : bool;
  encodes : bool;
  uploadOk : bool;
  addElementOk : bool
}.

(** An asynchronous computation: the calls made so far and either the
    value the promise resolves to or the error it rejects with. *)
Definition M (A : Type) : Type := (list Effect * (Exn + A))%type.

Definition ret {A} (a : A) : M A := ([], inr a).
Definition throw {A} (e : Exn) : M A := ([], inl e).
Definition emit (f : Effect) : M unit := ([f], inr tt).

Definition bind {A B} (c : M A) (k : A -> M B) : M B :=
  match c with
  | (tr, inl e) => (tr, inl e)
  | (tr, inr a) => let '(tr', r) := k a in (tr ++ tr', r)
  end.

(** [try { c } catch (e) { reject(e) } finally { cleanup }]. *)
Definition tryFinally {A} (c : M A) (cleanup : M unit) : M A :=
  let '(tr, r) := c in (tr ++ fst cleanup, r).

(** [new Image()] with [onload] and [onerror = reject]. *)
Definition loadImage {A} (decodes : bool) (onload : M A) : M A :=
  if decodes then onload else throw ImageLoadError.

Definition trace {A} (c : M A) : list Effect := fst c.
Definition outcome {A} (c : M A) : Exn + A := snd c.

End ExportIO.

Notation "'let*' x ':=' c 'in' k" := (ExportIO.bind c (fun x => k))
  (at level 10, x name, c at level 100, k at level 200).

Module Pipeline.
Import ExportIO.

(** The body of [img.onload] in safe mode. *)
Definition drawSafe (env : Env) (s : State) (w h : Q) : M Png :=
  let canvasWidth := JS.round w in
  let canvasHeight := JS.round h in
  if context2d env then
    let ops :=
      [ ClearRect 0 0 (inject_Z canvasWidth) (inject_Z canvasHeight);
        Save;
        Translate (Point.x (pan s)) (Point.y (pan s));
        Scale (zoom s) (zoom s);
        DrawImage WorldDataUrl 0 0 800 400;
        Restore ] in
    if encodes env then ret (mkPng canvasWidth canvasHeight ops)
    else throw EncodeError
  else throw CanvasNotSupported.

(** The body of [img.onload] on the serialization path, with its
    [finally] clause. *)
Definition drawVector (env : Env) (w h : Q) : M Png :=
  tryFinally
    (let canvasWidth := JS.round w in
     let canvasHeight := JS.round h in
     if context2d env then
       let ops :=
         [ ClearRect 0 0 (inject_Z canvasWidth) (inject_Z canvasHeight);
           DrawImage (SvgObjectUrl w h) 0 0
                     (inject_Z canvasWidth) (inject_Z canvasHeight) ] in
       if encodes env then ret (mkPng canvasWidth canvasHeight ops)
       else throw EncodeError
     else throw CanvasNotSupported)
    (emit RevokeObjectURL).

(** The safe-mode branch: draw the bitmap artwork on a canvas. *)
Definition rasterSafe (env : Env) (s : State) (w h : Q) : M Png :=
  loadImage (imageDecodes env) (drawSafe env s w h).

(** The other branch: serialize the live [<svg>], load it back through
    an object URL and draw it. *)
Definition rasterVector (env : Env) (w h : Q) : M Png :=
  let* _ := emit (SerializeSvg w h) in
  let* _ := emit CreateObjectURL in
  loadImage (imageDecodes env) (drawVector env w h).

(** Upload and add to the design, then announce. *)
Definition uploadAndAdd (intl : Intl) (env : Env) (s : State)
    (dataUrl : Png) : M State :=
  let* _ := emit (Upload dataUrl dataUrl) in
  let* _ := (if uploadOk env then ret tt else throw UploadRejected) in
  let* _ := emit (AddElement (formatMessage intl "Carte exportée" [])) in
  let* _ := (if addElementOk env then ret tt
             else throw AddElementRejected) in
  ret (setAriaMessage "Carte ajoutée au design" s).

(** [addCurrentViewToDesign]. *)
Definition addCurrentViewToDesign (intl : Intl) (env : Env)
    (s : State) : M State :=
  let '(w, h) :=
    match container env with
    | Some (rect, _) => (width rect, height rect)
    | None => (800, 500)
    end in
  if safeMode s then
    let* dataUrl := rasterSafe env s w h in
    uploadAndAdd intl env s dataUrl
  else
    match container env with
    | Some (_, Some _) =>
        let* dataUrl := rasterVector env w h in
        uploadAndAdd intl env s dataUrl
    | _ => ret s
    end.

(** Every object URL created in the trace is revoked later in it. *)
Fixpoint released (tr : list Effect) : bool :=
  match tr with
  | [] => true
  | CreateObjectURL :: rest =>
      existsb (fun f => match f with RevokeObjectURL => true | _ => false end)
              rest && released rest
  | _ :: rest => released rest
  end.

(** The trace touches the serialization path. *)
Definition serializes (tr : list Effect) : bool :=
  existsb (fun f => match f with
                    | SerializeSvg _ _ | CreateObjectURL | RevokeObjectURL => true
                    | _ => false
                    end) tr.

End Pipeline.

(* ===================================================================== *)
(** ** Tree augmenter *)
(* ===================================================================== *)

Module Scene.

(** Event handlers as data: what the closure does when it is called. *)
Inductive Handler : Type :=
| Original (label : string)
    (** a handler the artwork already carries *)
| SelectThen (name : string) (onClickPrev : option Handler)
    (** [e.stopPropagation(); handleSelect(name); onClickPrev?.(e)] *)
| HighlightOn
    (** [style.filter = "brightness(0.9)"] *)
| HighlightOff
    (** [style.filter = ""] *)
| AnnouncePoint (name : string).
    (** [e.stopPropagation(); setAriaMessage(`Point ${m.name}`)] *)

(** The value of a prop. *)
Inductive Attr : Type :=
| Str (v : string)
| Num (v : Q)
| TransformAttr (tx ty scale : Q)
    (** [`translate(${tx} ${ty}) scale(${scale})`] *)
| Fn (h : Handler).

(** [element.type]: a tag name, a component or the fragment symbol. *)
Inductive ElementType : Type :=
| Host (tag : string)
| Component (name : string)
| Fragment.

(** A [React.ReactNode]; the key of an element is kept with its props. *)
Inductive Node : Type :=
| Text (v : string)
| Null
| Element (type : ElementType) (props : gmap string Attr)
          (children : list Node).

Definition isNull (n : Node) : bool :=
  match n with Null => true | _ => false end.

(** A prop typed [string | undefined], read through [||]: an absent
    prop and the empty string both fall through. *)
Definition truthyString (a : option Attr) : option string :=
  match a with
  | Some (Str v) => if JS.truthy v then Some v else None
  | _ => None
  end.

(** A prop typed as an optional handler. *)
Definition handlerOf (a : option Attr) : option Handler :=
  match a with
  | Some (Fn h) => Some h
  | _ => None
  end.

(** [dataName || pathAttrs.id || intl.formatMessage("Région")]. *)
Definition resolveName (intl : Intl) (attrs : gmap string Attr) : string :=
  match truthyString (attrs !! "data-name") with
  | Some dataName => dataName
  | None =>
      match truthyString (attrs !! "id") with
      | Some id => id
      | None => formatMessage intl "Région" []
      end
  end.

Definition title (text : string) : Node :=
  Element (Host "title") ∅ [Text text].

(** One [<circle>] of the marker layer. *)
Definition markerNode (intl : Intl) (m : Marker.t) : Node :=
  Element (Host "circle")
    (<["key" := Str (Marker.id m)]>
     (<["cx" := Num (Marker.x m)]>
     (<["cy" := Num (Marker.y m)]>
     (<["r" := Num 6]>
     (<["fill" := Str "#E53935"]>
     (<["stroke" := Str "#fff"]>
     (<["strokeWidth" := Num 2]>
     (<["onClick" := Fn (AnnouncePoint (Marker.name m))]> ∅))))))))
    [title (formatMessage intl "Point {name}" [("name", Marker.name m)])].

(** The decorated props of a [path]. *)
Definition pathProps (name : string) (attrs : gmap string Attr)
    : gmap string Attr :=
  let onClickPrev := handlerOf (attrs !! "onClick") in
  <["onMouseLeave" := Fn HighlightOff]>
  (<["onMouseEnter" := Fn HighlightOn]>
  (<["onClick" := Fn (SelectThen name onClickPrev)]> attrs)).

(** [augment]: [React.Children.map] calls back on every child and
    leaves out the children mapped to [null]. *)
Fixpoint augment (intl : Intl) (s : State) (el : Node) : Node :=
  match el with
  | Element type props kids =>
      let tagName :=
        match type with Host tag => JS.toLowerCase tag | _ => "" end in
      let attrs := props in
      let children :=
        filter (fun c => negb (isNull c)) (map (augment intl s) kids) in
      let children :=
        if String.eqb tagName "svg" then
          let markerNodes := map (markerNode intl) (markers s) in
          [ Element (Host "g")
              (<["id" := Str "viewport"]>
               (<["transform" :=
                    TransformAttr (Point.x (pan s)) (Point.y (pan s))
                                  (zoom s)]> ∅))
              (children ++
               [Element (Host "g") (<["id" := Str "markers"]> ∅)
                        markerNodes]) ]
        else children in
      if String.eqb tagName "path" then
        let name := resolveName intl attrs in
        Element type (pathProps name attrs)
                [Element Fragment ∅ (title name :: children)]
      else Element type attrs children
  | _ => el
  end.

(** The children a node contributes to its parent once fragments are
    flattened and [null] is left out, as they appear in the document. *)
Fixpoint rendered (n : Node) : list Node :=
  match n with
  | Null => []
  | Element Fragment _ kids => flat_map rendered kids
  | _ => [n]
  end.

Definition renderedChildren (n : Node) : list Node :=
  match n with
  | Element _ _ kids => flat_map rendered kids
  | _ => []
  end.

Definition propsOf (n : Node) : gmap string Attr :=
  match n with
  | Element _ props _ => props
  | _ => ∅
  end.

(** [<WorldSvg />]: an element whose type is the imported component. *)
Definition worldSvg : Node := Element (Component "WorldSvg") ∅ [].

(** [SvgBoundary.render]. *)
Definition svgBoundary (hasError : bool) (children : Node) : Node :=
  if hasError then worldSvg else Element Fragment ∅ [children].

End Scene.

(* ===================================================================== *)
(** ** Rendering *)
(* ===================================================================== *)

(** What the map area shows. *)
Inductive MapView : Type :=
| SafeBitmap (boxWidth boxHeight : Q) (translate : Point.t) (scale : Q)
    (** the [<div>] with the artwork as background image *)
| VectorTree (boundaryChildren : Scene.Node).
    (** [<SvgBoundary>{augmentedWorld}</SvgBoundary>] *)

Record View : Type := mkView {
  liveRegion : string;
  cursor : string;
  mapView : MapView;
  selectedLabel : option string
}.

Definition render (intl : Intl) (s : State) : View :=
  {| liveRegion := ariaMessage s;
     cursor := if isPanning s then "grabbing" else "grab";
     mapView :=
       if safeMode s then SafeBitmap 800 400 (pan s) (zoom s)
       else VectorTree (Scene.augment intl s Scene.worldSvg);
     selectedLabel :=
       match selectedRegion s with
       | Some name =>
           if JS.truthy name
           then Some (formatMessage intl "Région sélectionnée: {name}"
                                    [("name", name)])
           else None
       | None => None
       end |}.

(* ===================================================================== *)
(** ** The component as a transition system *)
(* ===================================================================== *)

(** One input to the mounted component, with what the browser and the
    host answer while it is handled; for the wheel, the events handled
    before the component renders again. *)
Inductive Event : Type :=
| KeyDown (key : string)
| MouseDown (e : MouseEvent)
| MouseMove (e : MouseEvent)
| MouseUp
| MouseLeave
| Wheels (inputs : list (option DOMRect * WheelEvent))
| AddMarkerClick (now : Z) (svg : option ViewBox)
| AddToDesignClick (env : ExportIO.Env)
| RegionClick (name : string)
| MarkerClick (name : string).

(** An export that rejects leaves the state as it was. *)
Definition step (intl : Intl) (ev : Event) (s : State) : State :=
  match ev with
  | KeyDown key => onKeyDownContainer key s
  | MouseDown e => onMouseDown e s
  | MouseMove e => onMouseMove e s
  | MouseUp => onMouseUp s
  | MouseLeave => onMouseLeave s
  | Wheels inputs => onWheels inputs s
  | AddMarkerClick now svg => addMarkerAtCenter now svg s
  | AddToDesignClick env =>
      match ExportIO.outcome (Pipeline.addCurrentViewToDesign intl env s) with
      | inr s' => s'
      | inl _ => s
      end
  | RegionClick name => handleSelect name s
  | MarkerClick name => setAriaMessage ("Point " ++ name) s
  end.

Definition run (intl : Intl) (evs : list Event) (s : State) : State :=
  fold_left (fun acc ev => step intl ev acc) evs s.

(** The states a mounted component can be in. *)
Inductive reachable (intl : Intl) : State -> Prop :=
| reach_init : reachable intl initialState
| reach_step ev s : reachable intl s -> reachable intl (step intl ev s).

(** [n] presses of the same control. *)
Fixpoint repeatedly (n : nat) (f : State -> State) (s : State) : State :=
  match n with
  | O => s
  | S k => f (repeatedly k f s)
  end.

(** The viewport operations: the zoom controls, the keyboard, the
    pointer and the wheel. *)
Definition viewportEvent (ev : Event) : bool :=
  match ev with
  | KeyDown _ | MouseDown _ | MouseMove _ | MouseUp | MouseLeave
  | Wheels _ => true
  | _ => false
  end.

(* ===================================================================== *)
(** ** Inputs in sequence and checks on trees *)
(* ===================================================================== *)

(** Pointer moves handled one after another. *)
Definition mouseMoves (qs : list MouseEvent) (s : State) : State :=
  fold_left (fun acc q => onMouseMove q acc) qs s.

(** [element.type] of a node that is an element. *)
Definition elementType (n : Scene.Node) : option Scene.ElementType :=
  match n with
  | Scene.Element type _ _ => Some type
  | _ => None
  end.

Definition childrenOf (n : Scene.Node) : list Scene.Node :=
  match n with
  | Scene.Element _ _ kids => kids
  | _ => []
  end.

(** The test [tagName === "path"] of the augmenter. *)
Definition isPathTag (type : Scene.ElementType) : bool :=
  match type with
  | Scene.Host tag => String.eqb (JS.toLowerCase tag) "path"
  | _ => false
  end.

(** The first child in the document is a [title] holding [name]. *)
Definition titledWith (name : string) (kids : list Scene.Node) : bool :=
  match flat_map Scene.rendered kids with
  | Scene.Element (Scene.Host tag) _ [Scene.Text v] :: _ =>
      (String.eqb tag "title" && String.eqb v name)%bool
  | _ => false
  end.

(** The click handler selects [name]. *)
Definition selects (name : string) (props : gmap string Scene.Attr) : bool :=
  match props !! "onClick" with
  | Some (Scene.Fn (Scene.SelectThen n _)) => String.eqb n name
  | _ => false
  end.

(** Every [path] of the tree, at any depth, has the name resolved from
    its own props as its title and as the name its click selects. *)
Fixpoint accessible (intl : Intl) (n : Scene.Node) : bool :=
  match n with
  | Scene.Element type props kids =>
      ((if isPathTag type then
          titledWith (Scene.resolveName intl props) kids
          && selects (Scene.resolveName intl props) props
        else true)
       && forallb (accessible intl) kids)%bool
  | _ => true
  end.

(** The least zoom after [n] presses of zoom-in from the lower bound, and
    the greatest after [n] presses of zoom-out from the upper bound, were
    there no clamp. *)
Fixpoint grown (n : nat) : Q :=
  match n with
  | O => 0.2
  | S k => grown k * 1.2
  end.

Fixpoint shrunk (n : nat) : Q :=
  match n with
  | O => 5
  | S k => shrunk k / 1.2
  end.

(** Presses after which either zoom control has reached its bound. *)
Definition settleCount : nat := 18.

(* ===================================================================== *)
(** * Properties *)
(* ===================================================================== *)

(** ** Clamping *)

Section Clamp.

Lemma min5_range (w : Q) : 0.2 <= w -> zoomInRange (JS.min 5 w).
Proof.
  intros Hw. unfold zoomInRange, JS.min. split.
  - apply Q.min_glb; [reflexivity || (vm_compute; discriminate) | exact Hw].
  - apply Q.le_min_l.
Qed.

Lemma max02_range (w : Q) : w <= 5 -> zoomInRange (JS.max 0.2 w).
Proof.
  intros Hw. unfold zoomInRange, JS.max. split.
  - apply Q.le_max_l.
  - apply Q.max_lub; [vm_compute; discriminate | exact Hw].
Qed.

Lemma clamp_range (w : Q) : zoomInRange (JS.min 5 (JS.max 0.2 w)).
Proof.
  apply min5_range. unfold JS.max. apply Q.le_max_l.
Qed.

(** [Math.min(5, w)] is the literal [5] as soon as [w] reaches it. *)
Lemma min5_hit (w : Q) : 5 <= w -> JS.min 5 w = 5.
Proof.
  intros Hw. unfold JS.min, Qmin, GenericMinMax.gmin.
  destruct (5 ?= w) eqn:E; try reflexivity.
  apply Qgt_alt in E. lra.
Qed.

Lemma max02_hit (w : Q) : w <= 0.2 -> JS.max 0.2 w = 0.2.
Proof.
  intros Hw. unfold JS.max, Qmax, GenericMinMax.gmax.
  destruct (0.2 ?= w) eqn:E; try reflexivity.
  apply Qlt_alt in E. lra.
Qed.

Lemma min5_miss (w : Q) : JS.min 5 w = 5 \/ (JS.min 5 w = w /\ w < 5).
Proof.
  unfold JS.min, Qmin, GenericMinMax.gmin.
  destruct (5 ?= w) eqn:E; [now left | now left | right].
  split; [reflexivity | now apply Qgt_alt in E].
Qed.

Lemma max02_miss (w : Q) :
  JS.max 0.2 w = 0.2 \/ (JS.max 0.2 w = w /\ 0.2 < w).
Proof.
  unfold JS.max, Qmax, GenericMinMax.gmax.
  destruct (0.2 ?= w) eqn:E; [now left | right | now left].
  split; [reflexivity | now apply Qlt_alt in E].
Qed.

End Clamp.

(** ** What each handler does to each state cell *)

Section Frames.

Lemma zoom_handleZoomIn (s : State) :
  zoom (handleZoomIn s) = JS.min 5 (zoom s * 1.2).
Proof. reflexivity. Qed.

Lemma zoom_handleZoomOut (s : State) :
  zoom (handleZoomOut s) = JS.max 0.2 (zoom s / 1.2).
Proof. reflexivity. Qed.

(** A key is a zoom-in key, a zoom-out key, an arrow or ignored. *)
Lemma onKeyDownContainer_cases (key : string) (s : State) :
  onKeyDownContainer key s = handleZoomIn s \/
  onKeyDownContainer key s = handleZoomOut s \/
  (exists p, onKeyDownContainer key s = setPan p s) \/
  onKeyDownContainer key s = s.
Proof.
  unfold onKeyDownContainer.
  destruct (String.eqb key "+" || String.eqb key "=")%bool; [now left|].
  destruct (String.eqb key "-" || String.eqb key "_")%bool;
    [now right; left|].
  repeat match goal with
         | |- context [if String.eqb key ?k then _ else _] =>
             destruct (String.eqb key k); [right; right; left; eauto|]
         end.
  now right; right; right.
Qed.

(** A fulfilled export hands back the state it started from, with the
    announcement replaced when the design was extended. *)
Lemma export_outcome (intl : Intl) (env : ExportIO.Env) (s s' : State) :
  ExportIO.outcome (Pipeline.addCurrentViewToDesign intl env s) = inr s' ->
  s' = s \/ s' = setAriaMessage "Carte ajoutée au design" s.
Proof.
  unfold Pipeline.addCurrentViewToDesign, Pipeline.rasterSafe,
    Pipeline.rasterVector, Pipeline.drawSafe, Pipeline.drawVector,
    Pipeline.uploadAndAdd, ExportIO.loadImage.
  destruct env as [c dec ctx enc up add]; cbn.
  destruct c as [[rect [vb|]]|]; destruct (safeMode s), dec, ctx, enc, up, add;
    cbn; intros H; inversion H; auto.
Qed.

(** The wheel handler touches the zoom, the pan and the announcement
    only, whatever zoom its closure holds. *)
Lemma onWheel_cells (container : option DOMRect) (e : WheelEvent)
    (seen : Q) (s : State) :
  safeMode (onWheel container e seen s) = safeMode s /\
  isPanning (onWheel container e seen s) = isPanning s /\
  panStart (onWheel container e seen s) = panStart s /\
  markers (onWheel container e seen s) = markers s /\
  selectedRegion (onWheel container e seen s) = selectedRegion s.
Proof. destruct container; repeat split. Qed.

Lemma onWheels_fold (P : State -> Prop) (seen : Q)
    (inputs : list (option DOMRect * WheelEvent)) (s : State) :
  (forall container e acc, P acc -> P (onWheel container e seen acc)) ->
  P s ->
  P (fold_left (fun acc input => onWheel (fst input) (snd input) seen acc)
               inputs s).
Proof.
  intros Hstep. revert s.
  induction inputs as [|input inputs IH]; intros s Hs; [exact Hs|].
  cbn [fold_left]. apply IH, Hstep, Hs.
Qed.

Lemma onWheels_cells (inputs : list (option DOMRect * WheelEvent))
    (s : State) :
  safeMode (onWheels inputs s) = safeMode s /\
  isPanning (onWheels inputs s) = isPanning s /\
  panStart (onWheels inputs s) = panStart s /\
  markers (onWheels inputs s) = markers s /\
  selectedRegion (onWheels inputs s) = selectedRegion s.
Proof.
  unfold onWheels.
  apply (onWheels_fold
           (fun acc => safeMode acc = safeMode s /\
                       isPanning acc = isPanning s /\
                       panStart acc = panStart s /\
                       markers acc = markers s /\
                       selectedRegion acc = selectedRegion s));
    [|repeat split].
  intros container e acc (H1 & H2 & H3 & H4 & H5).
  destruct (onWheel_cells container e (zoom s) acc) as (-> & -> & -> & -> & ->).
  repeat split; assumption.
Qed.

Lemma onWheel_zoom_range (container : option DOMRect) (e : WheelEvent)
    (seen : Q) (s : State) :
  zoomInRange (zoom s) -> zoomInRange (zoom (onWheel container e seen s)).
Proof.
  intros Hz. destruct container; [|exact Hz]. cbn. apply clamp_range.
Qed.

Lemma onWheels_zoom_range (inputs : list (option DOMRect * WheelEvent))
    (s : State) :
  zoomInRange (zoom s) -> zoomInRange (zoom (onWheels inputs s)).
Proof.
  intros Hz. unfold onWheels.
  apply (onWheels_fold (fun acc => zoomInRange (zoom acc))); [|exact Hz].
  intros container e acc. apply onWheel_zoom_range.
Qed.

(** Case analysis on the handlers that branch before they update. *)
Ltac handler_branches s :=
  match goal with
  | |- context [onKeyDownContainer ?key s] =>
      let E := fresh "E" in
      destruct (onKeyDownContainer_cases key s) as [E|[E|[[? E]|E]]];
      rewrite ?E
  | |- context [onMouseMove _ s] =>
      unfold onMouseMove; destruct (isPanning s) eqn:?, (panStart s)
  | |- context [onWheels ?inputs s] =>
      destruct (onWheels_cells inputs s) as (? & ? & ? & ? & ?)
  | |- context [addMarkerAtCenter _ ?svg s] =>
      unfold addMarkerAtCenter; destruct (safeMode s) eqn:?; [|destruct svg]
  | |- context [ExportIO.outcome ?c] =>
      let E := fresh "E" in
      destruct (ExportIO.outcome c) as [?|?] eqn:E;
      [|apply export_outcome in E; destruct E; subst]
  end.

(** The cells an input can change: none changes the safe-mode flag; the
    drag flag follows the pointer buttons; only the add-marker control
    touches the store; only the keyboard and the wheel touch the zoom. *)
Lemma step_frame (intl : Intl) (ev : Event) (s : State) :
  safeMode (step intl ev s) = safeMode s /\
  isPanning (step intl ev s) =
    match ev with
    | MouseDown _ => true
    | MouseUp | MouseLeave => false
    | _ => isPanning s
    end /\
  markers (step intl ev s) =
    match ev with
    | AddMarkerClick now svg => markers (addMarkerAtCenter now svg s)
    | _ => markers s
    end /\
  zoom (step intl ev s) =
    match ev with
    | KeyDown key => zoom (onKeyDownContainer key s)
    | Wheels inputs => zoom (onWheels inputs s)
    | _ => zoom s
    end.
Proof.
  destruct ev; cbn [step]; try handler_branches s;
    repeat split; cbn; congruence.
Qed.

Lemma step_zoom_range (intl : Intl) (ev : Event) (s : State) :
  zoomInRange (zoom s) -> zoomInRange (zoom (step intl ev s)).
Proof.
  intros Hz. pose proof Hz as [Hlo Hhi].
  destruct (step_frame intl ev s) as (_ & _ & _ & ->).
  destruct ev; try exact Hz.
  - handler_branches s; try exact Hz.
    + rewrite zoom_handleZoomIn. apply min5_range. lra.
    + rewrite zoom_handleZoomOut. apply max02_range.
      apply Qle_shift_div_r; lra.
  - now apply onWheels_zoom_range.
Qed.

End Frames.

(** ** Zoom controls pressed repeatedly *)

Section Settling.

Lemma repeatedly_zoom_range (f : State -> State) :
  (forall s, zoomInRange (zoom s) -> zoomInRange (zoom (f s))) ->
  forall n s, zoomInRange (zoom s) -> zoomInRange (zoom (repeatedly n f s)).
Proof.
  intros Hf n. induction n; intros s Hz; cbn; auto.
Qed.

Lemma handleZoomIn_range (s : State) :
  zoomInRange (zoom s) -> zoomInRange (zoom (handleZoomIn s)).
Proof.
  intros [Hlo Hhi]. rewrite zoom_handleZoomIn. apply min5_range. lra.
Qed.

Lemma handleZoomOut_range (s : State) :
  zoomInRange (zoom s) -> zoomInRange (zoom (handleZoomOut s)).
Proof.
  intros [Hlo Hhi]. rewrite zoom_handleZoomOut. apply max02_range.
  apply Qle_shift_div_r; lra.
Qed.

(** Until the bound is hit, zoom-in keeps the zoom above [grown n]. *)
Lemma zoomIn_lower (n : nat) (s : State) :
  0.2 <= zoom s ->
  zoom (repeatedly n handleZoomIn s) = 5 \/
  grown n <= zoom (repeatedly n handleZoomIn s).
Proof.
  intros Hlo. induction n as [|n IH]; cbn [repeatedly grown].
  - now right.
  - rewrite zoom_handleZoomIn.
    destruct (min5_miss (zoom (repeatedly n handleZoomIn s) * 1.2))
      as [E|[E Hlt]]; [now left|].
    destruct IH as [IH|IH].
    + rewrite IH in Hlt. vm_compute in Hlt. discriminate.
    + right. rewrite E. lra.
Qed.

Lemma zoomOut_upper (n : nat) (s : State) :
  zoom s <= 5 ->
  zoom (repeatedly n handleZoomOut s) = 0.2 \/
  zoom (repeatedly n handleZoomOut s) <= shrunk n.
Proof.
  intros Hhi. induction n as [|n IH]; cbn [repeatedly shrunk].
  - now right.
  - rewrite zoom_handleZoomOut.
    destruct (max02_miss (zoom (repeatedly n handleZoomOut s) / 1.2))
      as [E|[E Hlt]]; [now left|].
    destruct IH as [IH|IH].
    + rewrite IH in Hlt. vm_compute in Hlt. discriminate.
    + right. rewrite E. unfold Qdiv.
      apply Qmult_le_compat_r; [exact IH | vm_compute; discriminate].
Qed.

Lemma zoomIn_settles (s : State) (n : nat) :
  zoomInRange (zoom s) -> (settleCount <= n)%nat ->
  zoom (repeatedly n handleZoomIn s) = 5.
Proof.
  intros Hz Hn.
  replace n with ((n - settleCount) + settleCount)%nat by lia.
  induction (n - settleCount)%nat as [|m IH]; cbn [Nat.add repeatedly].
  - destruct (zoomIn_lower settleCount s (proj1 Hz)) as [E|E]; [exact E|].
    pose proof (repeatedly_zoom_range handleZoomIn handleZoomIn_range
                  settleCount s Hz) as [_ Hhi].
    exfalso. assert (H : grown settleCount <= 5) by lra.
    vm_compute in H. apply H. reflexivity.
  - rewrite zoom_handleZoomIn, IH. reflexivity.
Qed.

Lemma zoomOut_settles (s : State) (n : nat) :
  zoomInRange (zoom s) -> (settleCount <= n)%nat ->
  zoom (repeatedly n handleZoomOut s) = 0.2.
Proof.
  intros Hz Hn.
  replace n with ((n - settleCount) + settleCount)%nat by lia.
  induction (n - settleCount)%nat as [|m IH]; cbn [Nat.add repeatedly].
  - destruct (zoomOut_upper settleCount s (proj2 Hz)) as [E|E]; [exact E|].
    pose proof (repeatedly_zoom_range handleZoomOut handleZoomOut_range
                  settleCount s Hz) as [Hlo _].
    exfalso. assert (H : 0.2 <= shrunk settleCount) by lra.
    vm_compute in H. apply H. reflexivity.
  - rewrite zoom_handleZoomOut, IH. reflexivity.
Qed.

End Settling.

(** ** Wheel zoom around the cursor *)

Section AnchorZoom.

Lemma wheel_zoom_positive (z dY : Q) : 0 < wheelNewZoom z dY.
Proof.
  destruct (clamp_range (z * wheelScaleFactor dY)) as [Hlo _].
  unfold wheelNewZoom. lra.
Qed.

Lemma wheelScaleFactor_in (dY : Q) :
  dY < 0 -> wheelScaleFactor dY = 1.1.
Proof.
  intros H. unfold wheelScaleFactor, JS.lt.
  now rewrite (proj1 (Qlt_alt dY 0) H).
Qed.

Lemma wheelScaleFactor_out (dY : Q) :
  0 <= dY -> wheelScaleFactor dY = 1 / 1.1.
Proof.
  intros H. unfold wheelScaleFactor, JS.lt.
  destruct (dY ?= 0) eqn:E; try reflexivity.
  apply Qlt_alt in E. lra.
Qed.

End AnchorZoom.

(** In exact arithmetic, a wheel event whose handler sees the zoom the
    cell holds, as the first wheel event of a render does, keeps the
    world point under the cursor. *)
Lemma onWheel_current_zoom_keeps_world_point (s : State) (rect : DOMRect)
    (e : WheelEvent) :
  0 < zoom s ->
  let s' := onWheel (Some rect) e (zoom s) s in
  ((wheelX e - left rect) - Point.x (pan s')) / zoom s'
  == ((wheelX e - left rect) - Point.x (pan s)) / zoom s /\
  ((wheelY e - top rect) - Point.y (pan s')) / zoom s'
  == ((wheelY e - top rect) - Point.y (pan s)) / zoom s.
Proof.
  intros Hz. cbn zeta.
  pose proof (wheel_zoom_positive (zoom s) (deltaY e)) as Hpos.
  cbn [onWheel zoom pan setAriaMessage setZoom setPan Point.x Point.y].
  split; field; split; lra.
Qed.

(** C1 (the code at the failing input).  On a freshly mounted component
    whose container sits at the origin, two wheel events with a negative
    [deltaY] at (150, 150), handled before the component renders again,
    leave the zoom at 1.1 and the pan at (-31.5, -31.5): both events
    compute [newZoom] and [k] from the zoom 1 of their render, and the
    second applies [k] to the pan the first one left.  The world point
    under the cursor was 150 and is 165 afterwards.  With a render
    between the two events the zoom is 1.21 and the world point stays
    150.  The numbers are those of exact arithmetic; the doubles of the
    source differ from them by rounding only. *)
Theorem onWheel_batched_moves_world_point :
  let input := (Some (mkRect 0 0 800 300), mkWheel 150 150 (-1)) in
  let before := initialState in
  let batched := step sourceLocale (Wheels [input; input]) before in
  let rendered :=
    run sourceLocale [Wheels [input]; Wheels [input]] before in
  (zoom batched == 1.1 /\
   Point.eqv (pan batched) (Point.mk (-31.5) (-31.5)) /\
   (150 - Point.x (pan before)) / zoom before == 150 /\
   (150 - Point.x (pan batched)) / zoom batched == 165 /\
   (150 - Point.y (pan batched)) / zoom batched == 165) /\
  (zoom rendered == 1.21 /\
   (150 - Point.x (pan rendered)) / zoom rendered == 150 /\
   (150 - Point.y (pan rendered)) / zoom rendered == 150).
Proof.
  cbn zeta. unfold Point.eqv.
  repeat split; vm_compute; reflexivity.
Qed.

(** C2 (zoom bounds).  Every input to the component keeps the zoom in
    [[0.2, 5]], the two zoom controls and the wheel included.  From any
    zoom in that range the zoom-in control never lowers the zoom and
    after [settleCount] presses the zoom is 5 and stays 5; the zoom-out
    control never raises it and after [settleCount] presses it is 0.2
    and stays 0.2.  A request beyond a bound yields the bound itself,
    for the wheel whatever zoom its handler sees: the handlers are total
    and have no error result. *)
Theorem zoom_bounds_preserved_and_settle (intl : Intl) (s : State) :
  zoomInRange (zoom s) ->
  (forall ev, zoomInRange (zoom (step intl ev s))) /\
  zoomInRange (zoom (handleZoomIn s)) /\
  zoomInRange (zoom (handleZoomOut s)) /\
  (forall container e seen,
     zoomInRange (zoom (onWheel container e seen s))) /\
  (forall n, zoom (repeatedly n handleZoomIn s)
             <= zoom (repeatedly (S n) handleZoomIn s)) /\
  (forall n, (settleCount <= n)%nat ->
             zoom (repeatedly n handleZoomIn s) = 5) /\
  (forall n, zoom (repeatedly (S n) handleZoomOut s)
             <= zoom (repeatedly n handleZoomOut s)) /\
  (forall n, (settleCount <= n)%nat ->
             zoom (repeatedly n handleZoomOut s) = 0.2) /\
  (5 <= zoom s * 1.2 -> zoom (handleZoomIn s) = 5) /\
  (zoom s / 1.2 <= 0.2 -> zoom (handleZoomOut s) = 0.2) /\
  (forall rect e seen, 5 <= seen * wheelScaleFactor (deltaY e) ->
                       zoom (onWheel (Some rect) e seen s) = 5) /\
  (forall rect e seen, seen * wheelScaleFactor (deltaY e) <= 0.2 ->
                       zoom (onWheel (Some rect) e seen s) = 0.2).
Proof.
  intros Hz.
  repeat match goal with |- _ /\ _ => split end.
  - intros ev. now apply step_zoom_range.
  - now apply handleZoomIn_range.
  - now apply handleZoomOut_range.
  - intros container e seen. now apply onWheel_zoom_range.
  - intros n. cbn [repeatedly]. rewrite zoom_handleZoomIn.
    destruct (repeatedly_zoom_range handleZoomIn handleZoomIn_range n s Hz)
      as [Hlo Hhi].
    unfold JS.min. apply Q.min_glb; lra.
  - intros n Hn. now apply zoomIn_settles.
  - intros n. cbn [repeatedly]. rewrite zoom_handleZoomOut.
    destruct (repeatedly_zoom_range handleZoomOut handleZoomOut_range n s Hz)
      as [Hlo Hhi].
    unfold JS.max. apply Q.max_lub; [lra|].
    apply Qle_shift_div_r; lra.
  - intros n Hn. now apply zoomOut_settles.
  - intros H. rewrite zoom_handleZoomIn. now apply min5_hit.
  - intros H. rewrite zoom_handleZoomOut. now apply max02_hit.
  - intros rect e seen H. cbn. unfold wheelNewZoom.
    apply min5_hit. unfold JS.max.
    eapply Qle_trans; [exact H | apply Q.le_max_r].
  - intros rect e seen H. cbn. unfold wheelNewZoom.
    rewrite (max02_hit _ H). reflexivity.
Qed.

Lemma zoom_bounds_preserved_and_settle_witness :
  zoom (repeatedly 18 handleZoomIn initialState) = 5 /\
  zoom (repeatedly 18 handleZoomOut initialState) = 0.2.
Proof.
  assert (Hz : zoomInRange (zoom initialState)) by (split; discriminate).
  pose proof (zoom_bounds_preserved_and_settle sourceLocale initialState Hz)
    as (_ & _ & _ & _ & _ & Hin & _ & Hout & _).
  split; [apply Hin | apply Hout]; apply le_n.
Defined.

(** ** Markers added one after another *)

Section MarkerSequence.

Lemma showInt_inj (a b : Z) : JS.showInt a = JS.showInt b -> a = b.
Proof.
  unfold JS.showInt. intros H.
  apply DecimalZ.to_int_inj.
  assert (Hnil : forall z, Z.to_int z <> Decimal.Pos Decimal.Nil /\
                           Z.to_int z <> Decimal.Neg Decimal.Nil).
  { intros [|p|p]; cbn; split; try discriminate;
      intros E; injection E as E;
      exact (DecimalPos.Unsigned.to_uint_nonnil p E). }
  destruct (Hnil a) as [Ha1 Ha2], (Hnil b) as [Hb1 Hb2].
  pose proof (NilZero.isi _ Ha1 Ha2) as Ea.
  pose proof (NilZero.isi _ Hb1 Hb2) as Eb.
  rewrite H in Ea. rewrite Ea in Eb. now injection Eb.
Qed.

Lemma markerId_inj (a b : Z) :
  ("m-" ++ JS.showInt a)%string = ("m-" ++ JS.showInt b)%string -> a = b.
Proof.
  cbn [String.append]. intros H. injection H as H. now apply showInt_inj.
Qed.

Lemma addMarkerAtCenter_safe (now : Z) (svg : option ViewBox) (s : State) :
  safeMode s = true ->
  addMarkerAtCenter now svg s =
  setAriaMessage (Marker.name (built (length (markers s)) now) ++ " ajouté")
    (setMarkers (markers s ++ [built (length (markers s)) now]) s).
Proof.
  intros H. unfold addMarkerAtCenter. now rewrite H.
Qed.

Lemma addMarkers_markers (clock : list Z) (s : State) :
  safeMode s = true ->
  markers (addMarkers clock s) =
  markers s ++
  map (fun '(k, t) => built k t)
      (combine (seq (length (markers s)) (length clock)) clock).
Proof.
  revert s. induction clock as [|t clock IH]; intros s Hs.
  - cbn. now rewrite List.app_nil_r.
  - change (addMarkers (t :: clock) s)
      with (addMarkers clock (addMarkerAtCenter t None s)).
    rewrite (addMarkerAtCenter_safe t None s Hs).
    rewrite IH by exact Hs.
    cbn [markers setAriaMessage setMarkers length seq combine map].
    rewrite List.length_app, Nat.add_1_r, <- List.app_assoc.
    reflexivity.
Qed.

Lemma built_names (k : nat) (clock : list Z) :
  map Marker.name
      (map (fun '(k, t) => built k t)
           (combine (seq k (length clock)) clock)) =
  map (fun n => ("Marqueur " ++ JS.showNat n)%string)
      (seq (S k) (length clock)).
Proof.
  revert k. induction clock as [|t clock IH]; intros k; [reflexivity|].
  cbn [length seq combine map Marker.name built].
  rewrite IH, Nat.add_1_r. reflexivity.
Qed.

Lemma built_ids (k : nat) (clock : list Z) :
  map Marker.id
      (map (fun '(k, t) => built k t)
           (combine (seq k (length clock)) clock)) =
  map (fun t => ("m-" ++ JS.showInt t)%string) clock.
Proof.
  revert k. induction clock as [|t clock IH]; intros k; [reflexivity|].
  cbn [length seq combine map Marker.id built].
  now rewrite IH.
Qed.

Lemma ids_NoDup (clock : list Z) :
  List.NoDup clock ->
  List.NoDup (map (fun t => ("m-" ++ JS.showInt t)%string) clock).
Proof.
  induction 1 as [|t clock Hnotin Hnd IH]; cbn [map]; constructor; auto.
  intros Hin. apply List.in_map_iff in Hin as (t' & E & Hin').
  apply markerId_inj in E. subst t'. now apply Hnotin.
Qed.

Lemma addMarkers_summary (clock : list Z) (s : State) :
  safeMode s = true -> markers s = [] ->
  let ms := markers (addMarkers clock s) in
  length ms = length clock /\
  map Marker.name ms =
    map (fun n => ("Marqueur " ++ JS.showNat n)%string)
        (seq 1 (length clock)) /\
  map Marker.id ms = map (fun t => ("m-" ++ JS.showInt t)%string) clock.
Proof.
  intros Hs Hm ms. subst ms.
  rewrite (addMarkers_markers clock s Hs), Hm. cbn [length List.app].
  split; [|split].
  - rewrite <- (List.length_map Marker.id), built_ids.
    apply List.length_map.
  - apply built_names.
  - apply built_ids.
Qed.

End MarkerSequence.

(** C3, as the code has it.  In safe mode, pressing the add-marker
    control once per clock reading, starting from an empty store, adds
    one marker per press, in the order of the presses; the names are
    ["Marqueur 1"] to ["Marqueur N"]; the id of each marker is ["m-"]
    followed by the clock reading of its press, so the ids are pairwise
    distinct when the clock readings are. *)
Theorem addMarkers_names_in_order (clock : list Z) (s : State) :
  safeMode s = true -> markers s = [] ->
  let ms := markers (addMarkers clock s) in
  length ms = length clock /\
  map Marker.name ms =
    map (fun n => ("Marqueur " ++ JS.showNat n)%string)
        (seq 1 (length clock)) /\
  map Marker.id ms = map (fun t => ("m-" ++ JS.showInt t)%string) clock /\
  (List.NoDup clock -> List.NoDup (map Marker.id ms)).
Proof.
  intros Hs Hm ms.
  destruct (addMarkers_summary clock s Hs Hm) as (Hlen & Hnames & Hids).
  fold ms in Hlen, Hnames, Hids.
  repeat split; try assumption.
  intros Hnd. rewrite Hids. now apply ids_NoDup.
Qed.

Lemma addMarkers_names_in_order_witness :
  let ms := markers (addMarkers [1000; 1016; 1033]%Z initialState) in
  map Marker.name ms = ["Marqueur 1"; "Marqueur 2"; "Marqueur 3"]%string /\
  List.NoDup (map Marker.id ms).
Proof.
  destruct (addMarkers_names_in_order [1000; 1016; 1033]%Z initialState
              eq_refl eq_refl) as (_ & Hnames & _ & Hnd).
  split; [exact Hnames|].
  apply Hnd.
  repeat constructor; cbn; intros H;
    repeat (destruct H as [H|H]; [discriminate H|]); exact H.
Defined.

(** C3, as the claim has it, fails: two presses that read the same clock
    value give two markers with the same id. *)
Lemma addMarkers_same_reading_same_id :
  let ms :=
    markers (addMarkers [1700000000000; 1700000000000]%Z initialState) in
  map Marker.name ms = ["Marqueur 1"; "Marqueur 2"]%string /\
  map Marker.id ms = ["m-1700000000000"; "m-1700000000000"]%string /\
  ~ List.NoDup (map Marker.id ms).
Proof.
  cbn zeta. split; [reflexivity|]. split; [reflexivity|].
  intros H. inversion H as [|? ? Hnotin _]; subst.
  apply Hnotin. now left.
Qed.

(** ** Name resolution in the augmenter *)

Section Regions.

Variable intl : Intl.

Lemma truthyString_nonempty (a : option Scene.Attr) (v : string) :
  a = Some (Scene.Str v) -> v <> ""%string -> Scene.truthyString a = Some v.
Proof.
  intros -> Hv. cbn. destruct v; [contradiction | reflexivity].
Qed.

Lemma truthyString_missing (a : option Scene.Attr) :
  a = None \/ a = Some (Scene.Str "") -> Scene.truthyString a = None.
Proof. intros [-> | ->]; reflexivity. Qed.

(** What [augment] returns for a [path] element. *)
Lemma augment_path (s : State) (tag : string)
    (props : gmap string Scene.Attr) (kids : list Scene.Node) :
  JS.toLowerCase tag = "path"%string ->
  Scene.augment intl s (Scene.Element (Scene.Host tag) props kids) =
  Scene.Element (Scene.Host tag)
    (Scene.pathProps (Scene.resolveName intl props) props)
    [Scene.Element Scene.Fragment ∅
       (Scene.title (Scene.resolveName intl props)
        :: filter (fun c => negb (Scene.isNull c))
                  (map (Scene.augment intl s) kids))].
Proof.
  intros H. cbn [Scene.augment]. rewrite H. reflexivity.
Qed.

End Regions.

(** C4, as the code has it.  A [path] element comes out of [augment]
    with a [title] holding the resolved name as its first child and with
    a click handler that selects that name.  The name is the [data-name]
    prop when that is a non-empty string, whatever the [id]; else the
    [id] prop when that is a non-empty string; else the localized
    fallback ["Région"]. *)
Theorem augment_path_name_precedence (intl : Intl) (s : State)
    (tag : string) (props : gmap string Scene.Attr)
    (kids : list Scene.Node) :
  JS.toLowerCase tag = "path"%string ->
  exists name : string,
    let out :=
      Scene.augment intl s (Scene.Element (Scene.Host tag) props kids) in
    hd_error (Scene.renderedChildren out) = Some (Scene.title name) /\
    (exists prev,
       Scene.propsOf out !! "onClick"
       = Some (Scene.Fn (Scene.SelectThen name prev))) /\
    (forall v, props !! "data-name" = Some (Scene.Str v) ->
               v <> ""%string -> name = v) /\
    (forall v, props !! "data-name" = None \/
               props !! "data-name" = Some (Scene.Str "") ->
               props !! "id" = Some (Scene.Str v) ->
               v <> ""%string -> name = v) /\
    (props !! "data-name" = None \/
     props !! "data-name" = Some (Scene.Str "") ->
     props !! "id" = None \/ props !! "id" = Some (Scene.Str "") ->
     name = formatMessage intl "Région" []).
Proof.
  intros Htag. exists (Scene.resolveName intl props). cbn zeta.
  rewrite (augment_path intl s tag props kids Htag).
  split; [reflexivity|]. split.
  - eexists. cbn [Scene.propsOf]. unfold Scene.pathProps.
    rewrite lookup_insert_ne by discriminate.
    rewrite lookup_insert_ne by discriminate.
    now rewrite lookup_insert_eq.
  - unfold Scene.resolveName. repeat split.
    + intros v Hd Hv.
      now rewrite (truthyString_nonempty _ v Hd Hv).
    + intros v Hd Hi Hv.
      rewrite (truthyString_missing _ Hd).
      now rewrite (truthyString_nonempty _ v Hi Hv).
    + intros Hd Hi.
      now rewrite (truthyString_missing _ Hd), (truthyString_missing _ Hi).
Qed.

Lemma augment_path_name_precedence_witness :
  exists name : string,
    hd_error
      (Scene.renderedChildren
         (Scene.augment sourceLocale initialState
            (Scene.Element (Scene.Host "path")
               (<["data-name" := Scene.Str "France"]>
                  (<["id" := Scene.Str "FR"]> ∅)) [])))
    = Some (Scene.title name) /\
    name = "France"%string.
Proof.
  destruct (augment_path_name_precedence sourceLocale initialState "path"
              (<["data-name" := Scene.Str "France"]>
                 (<["id" := Scene.Str "FR"]> ∅)) [] eq_refl)
    as (name & Hhd & _ & Hdata & _).
  exists name. split; [exact Hhd|].
  apply Hdata; [reflexivity | discriminate].
Defined.

(** C4, as the claim has it, fails: a [path] with an empty [data-name]
    and the id ["FR"] has both props, and its resolved name is the id,
    not the [data-name] value. *)
Lemma augment_empty_data_name_uses_id :
  let props : gmap string Scene.Attr :=
    <["data-name" := Scene.Str ""]> (<["id" := Scene.Str "FR"]> ∅) in
  let out :=
    Scene.augment sourceLocale initialState
      (Scene.Element (Scene.Host "path") props []) in
  props !! "data-name" = Some (Scene.Str "") /\
  props !! "id" = Some (Scene.Str "FR") /\
  hd_error (Scene.renderedChildren out) = Some (Scene.title "FR") /\
  hd_error (Scene.renderedChildren out) <> Some (Scene.title "").
Proof.
  cbn zeta. split; [reflexivity|]. split; [reflexivity|].
  assert (H : hd_error
                (Scene.renderedChildren
                   (Scene.augment sourceLocale initialState
                      (Scene.Element (Scene.Host "path")
                         (<["data-name" := Scene.Str ""]>
                            (<["id" := Scene.Str "FR"]> ∅)) [])))
              = Some (Scene.title "FR")) by reflexivity.
  split; [exact H|]. rewrite H. intros E. discriminate E.
Qed.

(** ** Size of the exported raster *)

Section ExportSize.

Lemma round_compat (v w : Q) : v == w -> JS.round v = JS.round w.
Proof. intros H. unfold JS.round. now rewrite H. Qed.

End ExportSize.

(** C5 (export size).  Whatever the zoom and the pan, when the image
    decodes and the canvas gives a context and encodes, the export
    uploads a raster whose pixel size is the width and the height of the
    displayed container, each rounded; in safe mode the artwork is drawn
    on it at its nominal 800 by 400 through the pan and zoom transform.
    For a container of 800 by 300 the raster is 800 by 300. *)
Theorem export_raster_has_viewport_size (intl : Intl) (env : ExportIO.Env)
    (s : State) (rect : DOMRect) (svg : option ViewBox) :
  ExportIO.container env = Some (rect, svg) ->
  safeMode s = true \/ svg <> None ->
  ExportIO.imageDecodes env = true ->
  ExportIO.context2d env = true ->
  ExportIO.encodes env = true ->
  exists png before rest,
    ExportIO.trace (Pipeline.addCurrentViewToDesign intl env s)
    = before ++ ExportIO.Upload png png :: rest /\
    (forall data thumb, ~ In (ExportIO.Upload data thumb) before) /\
    ExportIO.pixelWidth png = JS.round (width rect) /\
    ExportIO.pixelHeight png = JS.round (height rect) /\
    (safeMode s = true ->
     ExportIO.drawn png =
     [ ExportIO.ClearRect 0 0 (inject_Z (JS.round (width rect)))
                              (inject_Z (JS.round (height rect)));
       ExportIO.Save;
       ExportIO.Translate (Point.x (pan s)) (Point.y (pan s));
       ExportIO.Scale (zoom s) (zoom s);
       ExportIO.DrawImage ExportIO.WorldDataUrl 0 0 800 400;
       ExportIO.Restore ]) /\
    (width rect == 800 -> height rect == 300 ->
     ExportIO.pixelWidth png = 800%Z /\ ExportIO.pixelHeight png = 300%Z).
Proof.
  intros Hc Hmode Hdec Hctx Henc.
  destruct env as [c dec ctx enc up add]. cbn in Hc, Hdec, Hctx, Henc.
  subst c dec ctx enc.
  unfold Pipeline.addCurrentViewToDesign. cbn [ExportIO.container].
  destruct (safeMode s) eqn:Hs.
  - exists (ExportIO.mkPng (JS.round (width rect)) (JS.round (height rect))
              [ ExportIO.ClearRect 0 0 (inject_Z (JS.round (width rect)))
                                       (inject_Z (JS.round (height rect)));
                ExportIO.Save;
                ExportIO.Translate (Point.x (pan s)) (Point.y (pan s));
                ExportIO.Scale (zoom s) (zoom s);
                ExportIO.DrawImage ExportIO.WorldDataUrl 0 0 800 400;
                ExportIO.Restore ]), [].
    destruct up, add; eexists; (split; [reflexivity|]);
      (split; [intros ? ? []|]);
      (split; [reflexivity|]); (split; [reflexivity|]);
      (split; [reflexivity|]);
      intros Hw Hh; cbn [ExportIO.pixelWidth ExportIO.pixelHeight];
      rewrite (round_compat _ _ Hw), (round_compat _ _ Hh);
      split; reflexivity.
  - destruct Hmode as [Hmode|Hmode]; [discriminate|].
    destruct svg as [vb|]; [|contradiction].
    exists (ExportIO.mkPng (JS.round (width rect)) (JS.round (height rect))
              [ ExportIO.ClearRect 0 0 (inject_Z (JS.round (width rect)))
                                       (inject_Z (JS.round (height rect)));
                ExportIO.DrawImage
                  (ExportIO.SvgObjectUrl (width rect) (height rect)) 0 0
                  (inject_Z (JS.round (width rect)))
                  (inject_Z (JS.round (height rect))) ]),
           [ ExportIO.SerializeSvg (width rect) (height rect);
             ExportIO.CreateObjectURL; ExportIO.RevokeObjectURL ].
    destruct up, add; eexists; (split; [reflexivity|]);
      (split; [intros ? ? [H|[H|[H|[]]]]; discriminate H|]);
      (split; [reflexivity|]); (split; [reflexivity|]);
      (split; [discriminate|]);
      intros Hw Hh; cbn [ExportIO.pixelWidth ExportIO.pixelHeight];
      rewrite (round_compat _ _ Hw), (round_compat _ _ Hh);
      split; reflexivity.
Qed.

Lemma export_raster_has_viewport_size_witness :
  exists png before rest,
    ExportIO.trace
      (Pipeline.addCurrentViewToDesign sourceLocale
         (ExportIO.mkEnv (Some (mkRect 16 120 800 300, None))
                         true true true true true)
         (onWheel (Some (mkRect 16 120 800 300)) (mkWheel 416 320 (-1))
                  1 initialState))
    = before ++ ExportIO.Upload png png :: rest /\
    ExportIO.pixelWidth png = 800%Z /\ ExportIO.pixelHeight png = 300%Z.
Proof.
  destruct (export_raster_has_viewport_size sourceLocale
              (ExportIO.mkEnv (Some (mkRect 16 120 800 300, None))
                              true true true true true)
              (onWheel (Some (mkRect 16 120 800 300)) (mkWheel 416 320 (-1))
                       1 initialState)
              (mkRect 16 120 800 300) None
              eq_refl (or_introl eq_refl) eq_refl eq_refl eq_refl)
    as (png & before & rest & Htr & _ & _ & _ & _ & Hsize).
  exists png, before, rest. split; [exact Htr|].
  apply Hsize; reflexivity.
Defined.

(** ** Dragging *)

(** C6, as the code has it.  The drag flag is raised only by a
    mouse-down and lowered only by a mouse-up or a mouse-leave; no other
    input changes it.  [onMouseDown] does not look at the flag: whether
    or not a drag is active it leaves the pan alone, raises the flag and
    sets the drag origin to the pointer position minus the current pan,
    and the moves that follow track the pointer from that new origin. *)
Theorem drag_flag_transitions_and_reanchor (intl : Intl) (s : State) :
  (forall ev, isPanning (step intl ev s) <> isPanning s ->
     (isPanning s = false /\ isPanning (step intl ev s) = true /\
      exists e, ev = MouseDown e) \/
     (isPanning s = true /\ isPanning (step intl ev s) = false /\
      (ev = MouseUp \/ ev = MouseLeave))) /\
  (forall e,
     let s1 := onMouseDown e s in
     isPanning s1 = true /\
     pan s1 = pan s /\
     panStart s1 = Some (Point.mk (clientX e - Point.x (pan s))
                                  (clientY e - Point.y (pan s))) /\
     forall q,
       pan (onMouseMove q s1) =
       Point.mk (clientX q - (clientX e - Point.x (pan s)))
                (clientY q - (clientY e - Point.y (pan s)))) /\
  (isPanning (onMouseUp s) = false /\ panStart (onMouseUp s) = None) /\
  (isPanning (onMouseLeave s) = false /\ panStart (onMouseLeave s) = None) /\
  (forall q, isPanning s = false -> onMouseMove q s = s).
Proof.
  split; [|split; [|split; [|split]]].
  - intros ev Hne.
    destruct (step_frame intl ev s) as (_ & Hflag & _).
    rewrite Hflag in Hne |- *.
    destruct ev; try contradiction; destruct (isPanning s); try contradiction.
    + left. eauto.
    + right. auto.
    + right. auto.
  - intros e. cbn. repeat split; reflexivity.
  - now split.
  - now split.
  - intros q H. unfold onMouseMove. now rewrite H.
Qed.

Lemma drag_flag_transitions_and_reanchor_witness :
  let s := onMouseDown (mkMouse 10 10) initialState in
  onMouseMove (mkMouse 30 40) (onMouseUp s) = onMouseUp s /\
  isPanning (step sourceLocale MouseUp s) = false.
Proof.
  pose proof (drag_flag_transitions_and_reanchor sourceLocale
                (onMouseUp (onMouseDown (mkMouse 10 10) initialState)))
    as (_ & _ & _ & _ & Hidle).
  pose proof (drag_flag_transitions_and_reanchor sourceLocale
                (onMouseDown (mkMouse 10 10) initialState))
    as (Hflag & _).
  cbn zeta. split.
  - apply Hidle. reflexivity.
  - destruct (Hflag MouseUp) as [(H & _)|(_ & H & _)].
    + cbn. discriminate.
    + cbn in H. discriminate H.
    + exact H.
Defined.

(** C6, as the claim has it, fails: a second mouse-down during a drag
    that began at (10, 10) replaces the drag origin, and the move that
    follows pans to a different place than it would have. *)
Lemma mouse_down_while_dragging_reanchors :
  let s1 := onMouseDown (mkMouse 10 10) initialState in
  let s2 := onMouseDown (mkMouse 50 50) s1 in
  isPanning s1 = true /\
  panStart s1 = Some (Point.mk (10 - 0) (10 - 0)) /\
  panStart s2 = Some (Point.mk (50 - 0) (50 - 0)) /\
  s2 <> s1 /\
  ~ Point.eqv (pan (onMouseMove (mkMouse 60 60) s2))
              (pan (onMouseMove (mkMouse 60 60) s1)).
Proof.
  cbn zeta. repeat split.
  - intros H. apply (f_equal panStart) in H. cbn in H. discriminate H.
  - intros [H _]. vm_compute in H. discriminate H.
Qed.

(** ** Object URL of the serialization path *)


(** ** Announcements *)

Section Announcements.

Lemma append_nonempty (a b : string) :
  b <> ""%string -> (a ++ b)%string <> ""%string.
Proof.
  intros Hb. destruct a; cbn; [exact Hb | discriminate].
Qed.

End Announcements.

(** C8, as the code has it.  The zoom controls, the zoom keys and the
    wheel replace the announcement with ["Zoom avant"] or
    ["Zoom arrière"]; adding a marker replaces it with the marker's name
    followed by [" ajouté"]; selecting a region replaces it with the
    region's name followed by [" sélectionné"]; none of these is empty.
    The arrow keys move the pan by 20 and the pointer handlers drag it,
    and both leave the announcement as it was. *)
Theorem announcements_by_interaction (s : State) :
  (ariaMessage (handleZoomIn s) = "Zoom avant"%string /\
   ariaMessage (handleZoomOut s) = "Zoom arrière"%string /\
   ariaMessage (onKeyDownContainer "+" s) = "Zoom avant"%string /\
   ariaMessage (onKeyDownContainer "=" s) = "Zoom avant"%string /\
   ariaMessage (onKeyDownContainer "-" s) = "Zoom arrière"%string /\
   ariaMessage (onKeyDownContainer "_" s) = "Zoom arrière"%string) /\
  (forall rect e seen,
     (deltaY e < 0 ->
      ariaMessage (onWheel (Some rect) e seen s) = "Zoom avant"%string) /\
     (0 <= deltaY e ->
      ariaMessage (onWheel (Some rect) e seen s) = "Zoom arrière"%string) /\
     ariaMessage (onWheel (Some rect) e seen s) <> ""%string) /\
  (forall now svg,
     safeMode s = true \/ svg <> None ->
     exists m,
       markers (addMarkerAtCenter now svg s) = markers s ++ [m] /\
       ariaMessage (addMarkerAtCenter now svg s)
       = (Marker.name m ++ " ajouté")%string /\
       ariaMessage (addMarkerAtCenter now svg s) <> ""%string) /\
  (forall name,
     selectedRegion (handleSelect name s) = Some name /\
     ariaMessage (handleSelect name s) = (name ++ " sélectionné")%string /\
     ariaMessage (handleSelect name s) <> ""%string) /\
  (onKeyDownContainer "ArrowLeft" s
   = setPan (Point.mk (Point.x (pan s) + 20) (Point.y (pan s))) s /\
   onKeyDownContainer "ArrowRight" s
   = setPan (Point.mk (Point.x (pan s) - 20) (Point.y (pan s))) s /\
   onKeyDownContainer "ArrowUp" s
   = setPan (Point.mk (Point.x (pan s)) (Point.y (pan s) + 20)) s /\
   onKeyDownContainer "ArrowDown" s
   = setPan (Point.mk (Point.x (pan s)) (Point.y (pan s) - 20)) s) /\
  (forall p, ariaMessage (setPan p s) = ariaMessage s) /\
  (forall e,
     ariaMessage (onMouseDown e s) = ariaMessage s /\
     ariaMessage (onMouseMove e s) = ariaMessage s) /\
  ariaMessage (onMouseUp s) = ariaMessage s /\
  ariaMessage (onMouseLeave s) = ariaMessage s.
Proof.
  split; [repeat split|].
  split.
  { intros rect e seen. cbn [onWheel ariaMessage setAriaMessage].
    repeat split.
    - intros H. unfold JS.lt. now rewrite (proj1 (Qlt_alt _ _) H).
    - intros H. unfold JS.lt. destruct (deltaY e ?= 0) eqn:E; try reflexivity.
      apply Qlt_alt in E. lra.
    - destruct (JS.lt (deltaY e) 0); discriminate. }
  split.
  { intros now svg Hmode. unfold addMarkerAtCenter.
    destruct (safeMode s).
    - eexists. split; [reflexivity|]. split; [reflexivity|].
      apply append_nonempty. discriminate.
    - destruct Hmode as [Hmode|Hmode]; [discriminate|].
      destruct svg as [vb|]; [|contradiction].
      eexists. split; [reflexivity|]. split; [reflexivity|].
      apply append_nonempty. discriminate. }
  split.
  { intros name. split; [reflexivity|]. split; [reflexivity|].
    apply append_nonempty. discriminate. }
  split; [repeat split|].
  split; [reflexivity|].
  split; [|split; reflexivity].
  intros e. split; [reflexivity|].
  unfold onMouseMove. now destruct (isPanning s), (panStart s).
Qed.

Lemma announcements_by_interaction_witness :
  ariaMessage (onWheel (Some (mkRect 0 0 800 300)) (mkWheel 400 150 (-3))
                       1 initialState) = "Zoom avant"%string /\
  ariaMessage (addMarkerAtCenter 1000 None initialState)
  = "Marqueur 1 ajouté"%string.
Proof.
  pose proof (announcements_by_interaction initialState)
    as (_ & Hwheel & Hadd & _).
  split.
  - apply (Hwheel (mkRect 0 0 800 300) (mkWheel 400 150 (-3)) 1).
    reflexivity.
  - destruct (Hadd 1000%Z None (or_introl eq_refl)) as (m & Hm & Hmsg & _).
    rewrite Hmsg. cbn in Hm. injection Hm as <-. reflexivity.
Defined.

(** C8, as the claim has it, fails: the left arrow key moves the pan of a
    freshly mounted component by 20 and the announcement stays empty. *)
Lemma arrow_key_pans_without_announcement :
  let s := onKeyDownContainer "ArrowLeft" initialState in
  pan s = Point.mk (0 + 20) 0 /\
  pan s <> pan initialState /\
  ariaMessage s = ariaMessage initialState /\
  ariaMessage s = ""%string.
Proof.
  cbn zeta. repeat split. intros H. discriminate H.
Qed.

(** ** Safe mode *)

Section SafeMode.

Variable intl : Intl.

Lemma safeMode_step (ev : Event) (s : State) :
  safeMode (step intl ev s) = safeMode s.
Proof. apply step_frame. Qed.

Lemma reachable_safeMode (s : State) :
  reachable intl s -> safeMode s = true.
Proof.
  induction 1 as [|ev s Hr IH]; [reflexivity|].
  now rewrite safeMode_step.
Qed.

Lemma run_reachable (evs : list Event) (s : State) :
  reachable intl s -> reachable intl (run intl evs s).
Proof.
  revert s. induction evs as [|ev evs IH]; intros s Hr; [exact Hr|].
  cbn. apply IH. now constructor.
Qed.

(** In safe mode the export is the canvas branch followed by the
    upload. *)
Lemma export_safe_branch (env : ExportIO.Env) (s : State) :
  safeMode s = true ->
  Pipeline.addCurrentViewToDesign intl env s =
  let '(w, h) :=
    match ExportIO.container env with
    | Some (rect, _) => (width rect, height rect)
    | None => (800, 500)
    end in
  let* dataUrl := Pipeline.rasterSafe env s w h in
  Pipeline.uploadAndAdd intl env s dataUrl.
Proof.
  intros H. unfold Pipeline.addCurrentViewToDesign. rewrite H.
  reflexivity.
Qed.

Lemma export_safe_trace (env : ExportIO.Env) (s : State) :
  safeMode s = true ->
  Pipeline.serializes
    (ExportIO.trace (Pipeline.addCurrentViewToDesign intl env s)) = false /\
  forall data thumb,
    In (ExportIO.Upload data thumb)
       (ExportIO.trace (Pipeline.addCurrentViewToDesign intl env s)) ->
    In (ExportIO.DrawImage ExportIO.WorldDataUrl 0 0 800 400)
       (ExportIO.drawn data).
Proof.
  intros H. rewrite (export_safe_branch env s H).
  destruct env as [c dec ctx enc up add].
  unfold Pipeline.rasterSafe, Pipeline.drawSafe, Pipeline.uploadAndAdd,
    ExportIO.loadImage.
  cbn [ExportIO.container ExportIO.imageDecodes ExportIO.context2d
       ExportIO.encodes ExportIO.uploadOk ExportIO.addElementOk].
  destruct c as [[rect svg]|], dec, ctx, enc, up, add;
    (split; [reflexivity|]); intros data thumb Hin; cbn in Hin;
    repeat (destruct Hin as [Hin|Hin];
            [try discriminate Hin; injection Hin as <- _; cbn; tauto|]);
    contradiction.
Qed.

(** In safe mode the export loads the artwork and draws it: it rejects
    when the image does not decode, and when the canvas stages succeed
    its first call uploads the canvas on which the artwork was drawn
    through the pan and zoom transform. *)
Lemma export_safe_draws (env : ExportIO.Env) (s : State) :
  safeMode s = true ->
  (ExportIO.imageDecodes env = false ->
   ExportIO.trace (Pipeline.addCurrentViewToDesign intl env s) = [] /\
   ExportIO.outcome (Pipeline.addCurrentViewToDesign intl env s)
   = inl ExportIO.ImageLoadError) /\
  (ExportIO.imageDecodes env = true -> ExportIO.context2d env = true ->
   ExportIO.encodes env = true ->
   exists png rest w h,
     ExportIO.trace (Pipeline.addCurrentViewToDesign intl env s)
     = ExportIO.Upload png png :: rest /\
     ExportIO.drawn png
     = [ ExportIO.ClearRect 0 0 w h;
         ExportIO.Save;
         ExportIO.Translate (Point.x (pan s)) (Point.y (pan s));
         ExportIO.Scale (zoom s) (zoom s);
         ExportIO.DrawImage ExportIO.WorldDataUrl 0 0 800 400;
         ExportIO.Restore ]).
Proof.
  intros H. rewrite (export_safe_branch env s H).
  destruct env as [c dec ctx enc up add].
  unfold Pipeline.rasterSafe, Pipeline.drawSafe, Pipeline.uploadAndAdd,
    ExportIO.loadImage.
  cbn [ExportIO.container ExportIO.imageDecodes ExportIO.context2d
       ExportIO.encodes ExportIO.uploadOk ExportIO.addElementOk].
  split.
  - intros ->. now destruct c as [[rect svg]|].
  - intros -> -> ->.
    destruct c as [[rect svg]|], up, add; do 4 eexists;
      split; reflexivity.
Qed.


End SafeMode.

(** C9 (safe mode is permanent).  The safe-mode flag of a freshly
    mounted component is true and no input changes it.  So in every
    reachable state the flag is true, the map area shows the bitmap
    artwork under the pan and zoom transform rather than the augmented
    vector tree inside its error boundary, and an export makes no call
    of the serialization branch: it runs the canvas branch, and
    whatever it uploads has the artwork drawn by [drawImage].  The
    canvas branch is really taken: the export rejects when the artwork
    image does not decode, and when the image decodes and the canvas
    gives a context and encodes, its first call uploads the canvas on
    which [drawImage] drew the artwork at 800 by 400 through the pan
    and zoom transform. *)
Theorem safe_mode_is_permanent (intl : Intl) :
  safeMode initialState = true /\
  (forall ev s, safeMode (step intl ev s) = safeMode s) /\
  (forall s,
     reachable intl s ->
     safeMode s = true /\
     mapView (render intl s) = SafeBitmap 800 400 (pan s) (zoom s) /\
     (forall augmented, mapView (render intl s) <> VectorTree augmented) /\
     (forall env,
        Pipeline.serializes
          (ExportIO.trace (Pipeline.addCurrentViewToDesign intl env s))
        = false /\
        (forall data thumb,
           In (ExportIO.Upload data thumb)
              (ExportIO.trace (Pipeline.addCurrentViewToDesign intl env s)) ->
           In (ExportIO.DrawImage ExportIO.WorldDataUrl 0 0 800 400)
              (ExportIO.drawn data)) /\
        (ExportIO.imageDecodes env = false ->
         ExportIO.trace (Pipeline.addCurrentViewToDesign intl env s) = [] /\
         ExportIO.outcome (Pipeline.addCurrentViewToDesign intl env s)
         = inl ExportIO.ImageLoadError) /\
        (ExportIO.imageDecodes env = true ->
         ExportIO.context2d env = true ->
         ExportIO.encodes env = true ->
         exists png rest w h,
           ExportIO.trace (Pipeline.addCurrentViewToDesign intl env s)
           = ExportIO.Upload png png :: rest /\
           ExportIO.drawn png
           = [ ExportIO.ClearRect 0 0 w h;
               ExportIO.Save;
               ExportIO.Translate (Point.x (pan s)) (Point.y (pan s));
               ExportIO.Scale (zoom s) (zoom s);
               ExportIO.DrawImage ExportIO.WorldDataUrl 0 0 800 400;
               ExportIO.Restore ]))).
Proof.
  split; [reflexivity|]. split; [apply safeMode_step|].
  intros s Hr. pose proof (reachable_safeMode intl s Hr) as Hs.
  split; [exact Hs|].
  split; [cbn; now rewrite Hs|].
  split; [intros augmented; cbn; rewrite Hs; discriminate|].
  intros env.
  destruct (export_safe_trace intl env s Hs) as [Hser Hup].
  destruct (export_safe_draws intl env s Hs) as [Hfail Hdraw].
  split; [exact Hser|]. split; [exact Hup|].
  split; [exact Hfail | exact Hdraw].
Qed.

Lemma safe_mode_is_permanent_witness :
  let s :=
    run sourceLocale
        [KeyDown "+"; MouseDown (mkMouse 5 5); MouseMove (mkMouse 9 7);
         MouseUp; AddMarkerClick 1000 None; RegionClick "France"]
        initialState in
  safeMode s = true /\
  mapView (render sourceLocale s) = SafeBitmap 800 400 (pan s) (zoom s).
Proof.
  destruct (safe_mode_is_permanent sourceLocale) as (_ & _ & H).
  cbn zeta.
  destruct (H (run sourceLocale
                 [KeyDown "+"; MouseDown (mkMouse 5 5);
                  MouseMove (mkMouse 9 7); MouseUp;
                  AddMarkerClick 1000 None; RegionClick "France"]
                 initialState))
    as (Hs & Hview & _).
  - apply run_reachable. constructor.
  - split; [exact Hs | exact Hview].
Defined.

(** ** The object URL once the image has decoded *)



(** ** Marker placement in safe mode *)

Section Placement.

Variable intl : Intl.

Lemma markers_step (ev : Event) (s : State) :
  safeMode s = true ->
  markers (step intl ev s) = markers s \/
  exists now,
    markers (step intl ev s)
    = markers s ++ [built (length (markers s)) now].
Proof.
  intros Hs. destruct (step_frame intl ev s) as (_ & _ & -> & _).
  destruct ev; try (now left).
  right. eexists. now rewrite (addMarkerAtCenter_safe _ _ s Hs).
Qed.

End Placement.

(** C10 (marker position in safe mode).  In safe mode [addMarkerAtCenter]
    appends one marker whose coordinates are (400, 200), half of the
    nominal 800 by 400, whatever the pan and the zoom: two states that
    differ in pan and zoom get a marker at the same place.  Every marker
    in the store of a reachable state is at (400, 200). *)
Theorem safe_mode_marker_at_fixed_center (intl : Intl) :
  (forall now svg s,
     safeMode s = true ->
     exists m,
       markers (addMarkerAtCenter now svg s) = markers s ++ [m] /\
       Marker.x m == 400 /\ Marker.y m == 200 /\
       forall z p,
         markers (addMarkerAtCenter now svg (setZoom z (setPan p s)))
         = markers s ++ [m]) /\
  (forall s,
     reachable intl s ->
     Forall (fun m => Marker.x m == 400 /\ Marker.y m == 200) (markers s)).
Proof.
  split.
  - intros now svg s Hs. exists (built (length (markers s)) now).
    rewrite (addMarkerAtCenter_safe now svg s Hs).
    split; [reflexivity|]. split; [reflexivity|]. split; [reflexivity|].
    intros z p.
    now rewrite (addMarkerAtCenter_safe now svg (setZoom z (setPan p s)) Hs).
  - induction 1 as [|ev s Hr IH]; [constructor|].
    destruct (markers_step intl ev s (reachable_safeMode intl s Hr))
      as [E|[now E]]; rewrite E; [exact IH|].
    apply Forall_app. split; [exact IH|].
    constructor; [|constructor]. split; reflexivity.
Qed.

Lemma safe_mode_marker_at_fixed_center_witness :
  exists m,
    markers (addMarkerAtCenter 1000 None
               (onWheel (Some (mkRect 0 0 800 300)) (mkWheel 100 50 (-1))
                        1 initialState))
    = [m] /\
    Marker.x m == 400 /\ Marker.y m == 200.
Proof.
  destruct (safe_mode_marker_at_fixed_center sourceLocale) as (H & _).
  destruct (H 1000%Z None
              (onWheel (Some (mkRect 0 0 800 300)) (mkWheel 100 50 (-1))
                       1 initialState) eq_refl)
    as (m & Hm & Hx & Hy & _).
  exists m. split; [exact Hm|]. split; [exact Hx | exact Hy].
Defined.

(* ===================================================================== *)
(** * Further properties of the handlers *)
(* ===================================================================== *)

(** ** A drag from press to release *)

Section DragTracking.

Lemma onMouseMove_dragging (q : MouseEvent) (o : Point.t) (s : State) :
  isPanning s = true -> panStart s = Some o ->
  onMouseMove q s
  = setPan (Point.mk (clientX q - Point.x o) (clientY q - Point.y o)) s.
Proof.
  intros Hp Ho. unfold onMouseMove. now rewrite Hp, Ho.
Qed.

Lemma mouseMoves_keep_origin (qs : list MouseEvent) (o : Point.t)
    (s : State) :
  isPanning s = true -> panStart s = Some o ->
  isPanning (mouseMoves qs s) = true /\ panStart (mouseMoves qs s) = Some o.
Proof.
  revert s. induction qs as [|q qs IH]; intros s Hp Ho; [now split|].
  change (mouseMoves (q :: qs) s) with (mouseMoves qs (onMouseMove q s)).
  apply IH; now rewrite (onMouseMove_dragging q o s Hp Ho).
Qed.

Lemma mouseMoves_idle (qs : list MouseEvent) (s : State) :
  isPanning s = false -> mouseMoves qs s = s.
Proof.
  intros Hp. induction qs as [|q qs IH]; [reflexivity|].
  change (mouseMoves (q :: qs) s) with (mouseMoves qs (onMouseMove q s)).
  unfold onMouseMove. rewrite Hp. exact IH.
Qed.

Lemma mouseMoves_last (qs : list MouseEvent) (q : MouseEvent) (s : State) :
  mouseMoves (qs ++ [q]) s = onMouseMove q (mouseMoves qs s).
Proof. unfold mouseMoves. now rewrite fold_left_app. Qed.

End DragTracking.

(** X1 (a drag follows the last move only).  After a mouse-down at
    [e0], however many moves come in between, the pan after a move to
    [q] is [q - (e0 - p)], computed as the source computes it from the
    drag origin [e0 - p] stored at the mouse-down, where [p] is the pan
    at the mouse-down: the moves in between leave no trace in the pan,
    the drag origin and the drag flag stay as the mouse-down set them,
    and the zoom is not touched. *)
Theorem drag_pan_depends_on_last_move_only (s : State)
    (e0 q : MouseEvent) (qs : list MouseEvent) :
  let origin := Point.mk (clientX e0 - Point.x (pan s))
                         (clientY e0 - Point.y (pan s)) in
  let s' := mouseMoves (qs ++ [q]) (onMouseDown e0 s) in
  pan s' = Point.mk (clientX q - Point.x origin)
                    (clientY q - Point.y origin) /\
  panStart s' = Some origin /\
  isPanning s' = true /\
  zoom s' = zoom s.
Proof.
  cbn zeta.
  set (o := Point.mk (clientX e0 - Point.x (pan s))
                     (clientY e0 - Point.y (pan s))).
  assert (Hp : isPanning (onMouseDown e0 s) = true) by reflexivity.
  assert (Ho : panStart (onMouseDown e0 s) = Some o) by reflexivity.
  destruct (mouseMoves_keep_origin qs o _ Hp Ho) as [Hp' Ho'].
  rewrite mouseMoves_last, (onMouseMove_dragging q o _ Hp' Ho').
  cbn [pan panStart isPanning zoom setPan].
  split; [reflexivity|]. split; [exact Ho'|]. split; [exact Hp'|].
  clear Hp' Ho'. induction qs as [|p qs IH] using rev_ind; [reflexivity|].
  rewrite mouseMoves_last.
  destruct (mouseMoves_keep_origin qs o _ Hp Ho) as [Hp' Ho'].
  now rewrite (onMouseMove_dragging p o _ Hp' Ho').
Qed.

(** X2 (a released drag is over).  After a mouse-up or a mouse-leave, no
    sequence of pointer moves changes the state, so the pan stays where
    the drag left it. *)
Theorem moves_after_release_change_nothing (s : State)
    (qs : list MouseEvent) :
  mouseMoves qs (onMouseUp s) = onMouseUp s /\
  mouseMoves qs (onMouseLeave s) = onMouseLeave s /\
  pan (mouseMoves qs (onMouseUp s)) = pan s /\
  pan (mouseMoves qs (onMouseLeave s)) = pan s.
Proof.
  assert (Hup : mouseMoves qs (onMouseUp s) = onMouseUp s)
    by now apply mouseMoves_idle.
  assert (Hleave : mouseMoves qs (onMouseLeave s) = onMouseLeave s)
    by now apply mouseMoves_idle.
  rewrite Hup, Hleave. repeat split.
Qed.

(** ** The drag flag and the drag origin *)

Section DragCells.

Variable intl : Intl.

Lemma panStart_step (ev : Event) (s : State) :
  panStart (step intl ev s) =
  match ev with
  | MouseDown e =>
      Some (Point.mk (clientX e - Point.x (pan s))
                     (clientY e - Point.y (pan s)))
  | MouseUp | MouseLeave => None
  | _ => panStart s
  end.
Proof.
  destruct ev; cbn [step]; try reflexivity.
  - destruct (onKeyDownContainer_cases key s) as [E|[E|[[p E]|E]]];
      now rewrite E.
  - unfold onMouseMove.
    destruct (isPanning s), (panStart s) eqn:E; cbn; congruence.
  - apply onWheels_cells.
  - unfold addMarkerAtCenter. destruct (safeMode s); [reflexivity|].
    now destruct svg.
  - destruct (ExportIO.outcome _) as [e|s'] eqn:E; [reflexivity|].
    apply export_outcome in E. now destruct E; subst.
Qed.

End DragCells.

(** X3 (flag and origin agree).  In every reachable state the drag flag
    is raised exactly when a drag origin is stored, so the two tests of
    [onMouseMove] always agree. *)
Theorem drag_flag_iff_origin_stored (intl : Intl) (s : State) :
  reachable intl s ->
  (isPanning s = true <-> panStart s <> None).
Proof.
  induction 1 as [|ev s Hr IH].
  - cbn. split; [discriminate | intros H; now contradiction H].
  - rewrite panStart_step.
    destruct (step_frame intl ev s) as (_ & -> & _).
    destruct ev; try exact IH;
      split; try discriminate; try reflexivity;
      intros H; now contradiction H.
Qed.

Lemma drag_flag_iff_origin_stored_witness :
  isPanning (run sourceLocale [MouseDown (mkMouse 3 4); KeyDown "+"]
                 initialState) = true.
Proof.
  apply (drag_flag_iff_origin_stored sourceLocale).
  - apply run_reachable. constructor.
  - discriminate.
Defined.

(** ** Wheel events of one render *)

Section WheelBatches.


End WheelBatches.



(** ** Keys *)

(** X9 (other keys are ignored).  A key that is none of [+], [=], [-],
    [_] and the four arrows, spelled exactly so, leaves the whole state
    as it was. *)
Theorem unknown_key_is_ignored (key : string) (s : State) :
  ~ In key ["+"; "="; "-"; "_"; "ArrowLeft"; "ArrowRight"; "ArrowUp";
            "ArrowDown"]%string ->
  onKeyDownContainer key s = s.
Proof.
  intros Hnot. unfold onKeyDownContainer.
  repeat match goal with
         | |- context [String.eqb key ?k] =>
             destruct (String.eqb_spec key k);
             [exfalso; apply Hnot; subst; cbn; tauto|]
         end.
  reflexivity.
Qed.

Lemma unknown_key_is_ignored_witness :
  onKeyDownContainer "arrowleft" initialState = initialState /\
  onKeyDownContainer "Enter" initialState = initialState.
Proof.
  split; apply unknown_key_is_ignored; cbn; intros H;
    repeat (destruct H as [H|H]; [discriminate H|]); exact H.
Defined.

(** ** The marker store over time *)

Section MarkerHistory.

Variable intl : Intl.

Lemma addMarkerAtCenter_appends (now : Z) (svg : option ViewBox)
    (s : State) :
  exists added,
    markers (addMarkerAtCenter now svg s) = markers s ++ added /\
    (length added <= 1)%nat.
Proof.
  unfold addMarkerAtCenter.
  destruct (safeMode s); [|destruct svg].
  - eexists [_]. split; [reflexivity | apply le_n].
  - eexists [_]. split; [reflexivity | apply le_n].
  - exists []. split; [now rewrite List.app_nil_r | apply Nat.le_0_l].
Qed.

Lemma step_appends (ev : Event) (s : State) :
  exists added,
    markers (step intl ev s) = markers s ++ added /\
    (length added <= 1)%nat.
Proof.
  destruct (step_frame intl ev s) as (_ & _ & -> & _).
  destruct ev; try (exists []; split;
                    [now rewrite List.app_nil_r | apply Nat.le_0_l]).
  apply addMarkerAtCenter_appends.
Qed.

Lemma showNat_inj (a b : nat) : JS.showNat a = JS.showNat b -> a = b.
Proof.
  unfold JS.showNat. intros H.
  apply DecimalNat.Unsigned.to_uint_inj.
  pose proof (NilEmpty.usu (Nat.to_uint a)) as Ha.
  pose proof (NilEmpty.usu (Nat.to_uint b)) as Hb.
  rewrite H in Ha. rewrite Ha in Hb. now injection Hb.
Qed.

Lemma reachable_names (s : State) :
  reachable intl s ->
  map Marker.name (markers s)
  = map (fun n => ("Marqueur " ++ JS.showNat n)%string)
        (seq 1 (length (markers s))).
Proof.
  induction 1 as [|ev s Hr IH]; [reflexivity|].
  destruct (markers_step intl ev s (reachable_safeMode intl s Hr))
    as [E|[now E]]; rewrite E; [exact IH|].
  rewrite List.map_app, List.length_app, IH. cbn [length map].
  rewrite Nat.add_1_r, List.seq_S, List.map_app. cbn [map built Marker.name].
  now rewrite Nat.add_1_r.
Qed.

End MarkerHistory.

(** X10 (the store only grows).  Whatever the inputs, the markers
    already in the store stay in it, unchanged and in the same order: a
    run of inputs only appends, at most one marker per input. *)
Theorem markers_are_append_only (intl : Intl) (evs : list Event)
    (s : State) :
  exists added,
    markers (run intl evs s) = markers s ++ added /\
    (length added <= length evs)%nat.
Proof.
  revert s. induction evs as [|ev evs IH]; intros s.
  - exists []. split; [now rewrite List.app_nil_r | apply le_n].
  - change (run intl (ev :: evs) s) with (run intl evs (step intl ev s)).
    destruct (IH (step intl ev s)) as (rest & Hrest & Hlen).
    destruct (step_appends intl ev s) as (one & Hone & Hle).
    exists (one ++ rest). split.
    + now rewrite Hrest, Hone, List.app_assoc.
    + rewrite List.length_app. cbn [length]. lia.
Qed.

(** X11 (names count up in every reachable state).  However the
    add-marker presses are interleaved with other inputs, the marker at
    position [i] of the store is named ["Marqueur i"], counting from 1,
    and no two markers share a name. *)
Theorem reachable_marker_names (intl : Intl) (s : State) :
  reachable intl s ->
  map Marker.name (markers s)
  = map (fun n => ("Marqueur " ++ JS.showNat n)%string)
        (seq 1 (length (markers s))) /\
  List.NoDup (map Marker.name (markers s)).
Proof.
  intros Hr. pose proof (reachable_names intl s Hr) as Hnames.
  split; [exact Hnames|]. rewrite Hnames.
  generalize (List.seq_NoDup (length (markers s)) 1).
  generalize (seq 1 (length (markers s))).
  induction 1 as [|n l Hnotin Hnd IH]; cbn [map]; constructor; auto.
  intros Hin. apply List.in_map_iff in Hin as (n' & E & Hin').
  cbn [String.append] in E. apply Hnotin.
  assert (n' = n); [|now subst].
  apply showNat_inj.
  repeat (injection E as E). exact E.
Qed.

Lemma reachable_marker_names_witness :
  map Marker.name
      (markers (run sourceLocale
                    [AddMarkerClick 5 None; KeyDown "ArrowUp";
                     AddMarkerClick 5 None; MouseDown (mkMouse 1 1);
                     AddMarkerClick 9 None]
                    initialState))
  = ["Marqueur 1"; "Marqueur 2"; "Marqueur 3"]%string.
Proof.
  destruct (reachable_marker_names sourceLocale
              (run sourceLocale
                   [AddMarkerClick 5 None; KeyDown "ArrowUp";
                    AddMarkerClick 5 None; MouseDown (mkMouse 1 1);
                    AddMarkerClick 9 None]
                   initialState)) as [H _].
  - apply run_reachable. constructor.
  - rewrite H. reflexivity.
Defined.

(** X12 (the branch outside safe mode).  With the safe-mode flag down,
    [addMarkerAtCenter] does nothing at all when the container holds no
    [<svg>]: no marker, no announcement.  With an [<svg>] it appends a
    marker at the centre of the view box, named and identified as in
    safe mode, whatever the pan and the zoom; for the view box
    [0 0 800 400] that is the place safe mode uses. *)
Theorem addMarkerAtCenter_outside_safe_mode (now : Z) (s : State) :
  safeMode s = false ->
  addMarkerAtCenter now None s = s /\
  (forall vb,
     exists m,
       markers (addMarkerAtCenter now (Some vb) s) = markers s ++ [m] /\
       Marker.x m = vbX vb + vbWidth vb / 2 /\
       Marker.y m = vbY vb + vbHeight vb / 2 /\
       Marker.id m = Marker.id (built (length (markers s)) now) /\
       Marker.name m = Marker.name (built (length (markers s)) now) /\
       ariaMessage (addMarkerAtCenter now (Some vb) s)
       = (Marker.name m ++ " ajouté")%string /\
       (forall z p,
          markers (addMarkerAtCenter now (Some vb) (setZoom z (setPan p s)))
          = markers s ++ [m])) /\
  (exists m,
     markers (addMarkerAtCenter now (Some (mkViewBox 0 0 800 400)) s)
     = markers s ++ [m] /\
     Marker.x m == Marker.x (built (length (markers s)) now) /\
     Marker.y m == Marker.y (built (length (markers s)) now)).
Proof.
  intros Hs. unfold addMarkerAtCenter at 1. rewrite Hs.
  split; [reflexivity|]. split.
  - intros vb. unfold addMarkerAtCenter. cbn [safeMode setZoom setPan].
    rewrite Hs. eexists. repeat split.
  - unfold addMarkerAtCenter. rewrite Hs. eexists.
    split; [reflexivity|]. split; reflexivity.
Qed.

Lemma addMarkerAtCenter_outside_safe_mode_witness :
  let s := mkState 2 (Point.mk 40 (-8)) false None "" None [] false in
  addMarkerAtCenter 1000 None s = s.
Proof.
  cbn zeta.
  apply (addMarkerAtCenter_outside_safe_mode 1000
           (mkState 2 (Point.mk 40 (-8)) false None "" None [] false)).
  reflexivity.
Defined.

(** ** Outcomes of an export *)

Ltac export_cases env s Hs :=
  unfold Pipeline.addCurrentViewToDesign, Pipeline.rasterSafe,
    Pipeline.rasterVector, Pipeline.drawSafe, Pipeline.drawVector,
    Pipeline.uploadAndAdd, ExportIO.loadImage;
  rewrite ?Hs;
  let c := fresh "c" in
  let dec := fresh "dec" in
  let ctx := fresh "ctx" in
  let enc := fresh "enc" in
  let up := fresh "up" in
  let add := fresh "add" in
  destruct env as [c dec ctx enc up add];
  cbn [ExportIO.container ExportIO.imageDecodes ExportIO.context2d
       ExportIO.encodes ExportIO.uploadOk ExportIO.addElementOk];
  destruct c as [[? [?|]]|], dec, ctx, enc, up, add.

(** X13 (when an export goes through).  In safe mode the export is
    fulfilled exactly when the image decodes, the canvas gives a context
    and encodes, the upload is accepted and the element is added.  It
    then has made two calls, the upload of one raster as both image and
    thumbnail and after it the insertion, and it announces the addition;
    without a container the raster is 800 by 500. *)
Theorem export_fulfilled_iff_every_stage_succeeds (intl : Intl)
    (env : ExportIO.Env) (s : State) :
  safeMode s = true ->
  let r := Pipeline.addCurrentViewToDesign intl env s in
  ((exists s', ExportIO.outcome r = inr s') <->
   (ExportIO.imageDecodes env = true /\ ExportIO.context2d env = true /\
    ExportIO.encodes env = true /\ ExportIO.uploadOk env = true /\
    ExportIO.addElementOk env = true)) /\
  (forall s',
     ExportIO.outcome r = inr s' ->
     s' = setAriaMessage "Carte ajoutée au design" s /\
     exists png,
       ExportIO.trace r
       = [ExportIO.Upload png png;
          ExportIO.AddElement (formatMessage intl "Carte exportée" [])] /\
       (ExportIO.container env = None ->
        ExportIO.pixelWidth png = 800%Z /\
        ExportIO.pixelHeight png = 500%Z)).
Proof.
  intros Hs. cbn zeta. split.
  - export_cases env s Hs; cbn;
      (split;
       [ intros [s' H]; try discriminate H; repeat split
       | intros (H1 & H2 & H3 & H4 & H5); try discriminate;
         eexists; reflexivity ]).
  - intros s'. export_cases env s Hs; cbn; intros H; try discriminate H;
      injection H as <-; (split; [reflexivity|]); eexists;
      (split; [reflexivity|]); intros Hc; try discriminate Hc;
      split; reflexivity.
Qed.

Lemma export_fulfilled_iff_every_stage_succeeds_witness :
  exists s',
    ExportIO.outcome
      (Pipeline.addCurrentViewToDesign sourceLocale
         (ExportIO.mkEnv None true true true true true) initialState)
    = inr s'.
Proof.
  apply (export_fulfilled_iff_every_stage_succeeds sourceLocale
           (ExportIO.mkEnv None true true true true true) initialState
           eq_refl).
  repeat split.
Defined.

(** X14 (when an export fails).  In safe mode a failure to decode the
    image, to get a context or to encode rejects the export before any
    call to the host; a rejected upload leaves the insertion uncalled; a
    rejected insertion comes after the upload was made.  A rejected
    export leaves the state, the announcement included, as it was. *)
Theorem export_failure_stops_at_the_failing_stage (intl : Intl)
    (env : ExportIO.Env) (s : State) :
  safeMode s = true ->
  let r := Pipeline.addCurrentViewToDesign intl env s in
  (ExportIO.imageDecodes env = false ->
   ExportIO.trace r = [] /\ ExportIO.outcome r = inl ExportIO.ImageLoadError) /\
  (ExportIO.imageDecodes env = true -> ExportIO.context2d env = false ->
   ExportIO.trace r = [] /\
   ExportIO.outcome r = inl ExportIO.CanvasNotSupported) /\
  (ExportIO.imageDecodes env = true -> ExportIO.context2d env = true ->
   ExportIO.encodes env = false ->
   ExportIO.trace r = [] /\ ExportIO.outcome r = inl ExportIO.EncodeError) /\
  (ExportIO.imageDecodes env = true -> ExportIO.context2d env = true ->
   ExportIO.encodes env = true -> ExportIO.uploadOk env = false ->
   (exists png, ExportIO.trace r = [ExportIO.Upload png png]) /\
   ExportIO.outcome r = inl ExportIO.UploadRejected) /\
  (ExportIO.imageDecodes env = true -> ExportIO.context2d env = true ->
   ExportIO.encodes env = true -> ExportIO.uploadOk env = true ->
   ExportIO.addElementOk env = false ->
   (exists png alt,
      ExportIO.trace r
      = [ExportIO.Upload png png; ExportIO.AddElement alt]) /\
   ExportIO.outcome r = inl ExportIO.AddElementRejected) /\
  (forall e, ExportIO.outcome r = inl e ->
             step intl (AddToDesignClick env) s = s).
Proof.
  intros Hs. cbn zeta.
  repeat match goal with |- _ /\ _ => split end.
  - export_cases env s Hs; cbn; intros H; try discriminate H; now split.
  - export_cases env s Hs; cbn; intros H1 H2;
      try discriminate H1; try discriminate H2; now split.
  - export_cases env s Hs; cbn; intros H1 H2 H3;
      try discriminate H1; try discriminate H2; try discriminate H3;
      now split.
  - export_cases env s Hs; cbn; intros H1 H2 H3 H4;
      try discriminate H1; try discriminate H2; try discriminate H3;
      try discriminate H4; (split; [eexists|]); reflexivity.
  - export_cases env s Hs; cbn; intros H1 H2 H3 H4 H5;
      try discriminate H1; try discriminate H2; try discriminate H3;
      try discriminate H4; try discriminate H5;
      (split; [do 2 eexists|]); reflexivity.
  - intros e H. cbn [step]. now rewrite H.
Qed.

Lemma export_failure_stops_at_the_failing_stage_witness :
  ExportIO.trace
    (Pipeline.addCurrentViewToDesign sourceLocale
       (ExportIO.mkEnv (Some (mkRect 0 0 800 300, None))
                       true false true true true) initialState) = [].
Proof.
  destruct (export_failure_stops_at_the_failing_stage sourceLocale
              (ExportIO.mkEnv (Some (mkRect 0 0 800 300, None))
                              true false true true true) initialState
              eq_refl) as (_ & H & _).
  apply H; reflexivity.
Defined.

(** X15 (an export touches nothing but the announcement).  In either
    mode and whatever the browser and the host answer, an export leaves
    the zoom, the pan, the drag cells, the markers, the selection and the
    safe-mode flag as they were; the announcement is either kept or
    becomes ["Carte ajoutée au design"]. *)
Theorem export_changes_only_the_announcement (intl : Intl)
    (env : ExportIO.Env) (s : State) :
  let s' := step intl (AddToDesignClick env) s in
  zoom s' = zoom s /\ pan s' = pan s /\
  isPanning s' = isPanning s /\ panStart s' = panStart s /\
  markers s' = markers s /\ selectedRegion s' = selectedRegion s /\
  safeMode s' = safeMode s /\
  (s' = s \/ s' = setAriaMessage "Carte ajoutée au design" s).
Proof.
  cbn zeta. cbn [step].
  destruct (ExportIO.outcome _) as [e|s'] eqn:E.
  - repeat split. now left.
  - apply export_outcome in E. destruct E as [-> | ->]; repeat split; auto.
Qed.

(** X16 (outside safe mode, no [<svg>] to serialize).  With the
    safe-mode flag down and no [<svg>] in the container, or no
    container, the export returns at once: it is fulfilled without a
    single call and without an announcement. *)
Theorem export_without_svg_returns_silently (intl : Intl)
    (env : ExportIO.Env) (s : State) :
  safeMode s = false ->
  (ExportIO.container env = None \/
   exists rect, ExportIO.container env = Some (rect, None)) ->
  ExportIO.trace (Pipeline.addCurrentViewToDesign intl env s) = [] /\
  ExportIO.outcome (Pipeline.addCurrentViewToDesign intl env s) = inr s /\
  step intl (AddToDesignClick env) s = s.
Proof.
  intros Hs Hc. cbn [step].
  unfold Pipeline.addCurrentViewToDesign. rewrite Hs.
  destruct Hc as [-> | [rect ->]]; now repeat split.
Qed.

Lemma export_without_svg_returns_silently_witness :
  let s := mkState 1 (Point.mk 0 0) false None "" None [] false in
  step sourceLocale
       (AddToDesignClick (ExportIO.mkEnv None true true true true true)) s
  = s.
Proof.
  cbn zeta.
  apply (export_without_svg_returns_silently sourceLocale
           (ExportIO.mkEnv None true true true true true)
           (mkState 1 (Point.mk 0 0) false None "" None [] false) eq_refl).
  now left.
Defined.

(** ** The augmenter over whole trees *)

Section Trees.

Variable intl : Intl.

(** Induction over a node with the hypothesis for every child. *)
Lemma Node_induction (P : Scene.Node -> Prop) :
  (forall v, P (Scene.Text v)) ->
  P Scene.Null ->
  (forall type props kids,
     Forall P kids -> P (Scene.Element type props kids)) ->
  forall n, P n.
Proof.
  intros HT HN HE. fix IH 1. intros [v| |type props kids];
    [apply HT | exact HN |].
  apply HE. induction kids as [|k kids IHk]; constructor;
    [apply IH | exact IHk].
Qed.

Lemma forallb_kept (f : Scene.Node -> bool) (g : Scene.Node -> Scene.Node)
    (kids : list Scene.Node) :
  Forall (fun k => f (g k) = true) kids ->
  forallb f (filter (fun c => negb (Scene.isNull c)) (map g kids)) = true.
Proof.
  induction 1 as [|k kids Hk _ IH]; [reflexivity|].
  cbn [map]. rewrite filter_cons.
  destruct (decide _); [cbn [forallb]; now rewrite Hk|exact IH].
Qed.

Lemma resolveName_pathProps (name : string) (props : gmap string Scene.Attr) :
  Scene.resolveName intl (Scene.pathProps name props)
  = Scene.resolveName intl props.
Proof.
  unfold Scene.resolveName, Scene.pathProps.
  now rewrite !lookup_insert_ne by discriminate.
Qed.

Lemma selects_pathProps (name : string) (props : gmap string Scene.Attr) :
  selects name (Scene.pathProps name props) = true.
Proof.
  unfold selects, Scene.pathProps.
  rewrite !lookup_insert_ne by discriminate.
  rewrite lookup_insert_eq. apply String.eqb_refl.
Qed.

Lemma accessible_markerNode (m : Marker.t) :
  accessible intl (Scene.markerNode intl m) = true.
Proof. reflexivity. Qed.

End Trees.

(** X17 (every region of the output is labelled).  In the tree that
    [augment] returns, every [path] element at any depth, whatever its
    nesting, has as first child in the document a [title] holding the
    name resolved from its props, and a click handler that selects that
    same name. *)
Theorem augment_labels_every_path (intl : Intl) (s : State)
    (n : Scene.Node) :
  accessible intl (Scene.augment intl s n) = true.
Proof.
  induction n as [v| |type props kids IH] using Node_induction;
    [reflexivity | reflexivity |].
  pose proof (forallb_kept (accessible intl) (Scene.augment intl s) kids IH)
    as Hkids.
  cbn [Scene.augment].
  set (children := filter (fun c => negb (Scene.isNull c))
                          (map (Scene.augment intl s) kids)) in *.
  destruct type as [tag|name|]; cbn [isPathTag].
  - destruct (String.eqb (JS.toLowerCase tag) "path") eqn:Epath.
    + cbn [accessible isPathTag]. rewrite Epath, (resolveName_pathProps intl).
      rewrite selects_pathProps.
      destruct (String.eqb (JS.toLowerCase tag) "svg") eqn:Esvg.
      * apply String.eqb_eq in Epath, Esvg. congruence.
      * cbn. rewrite String.eqb_refl, Hkids. reflexivity.
    + destruct (String.eqb (JS.toLowerCase tag) "svg") eqn:Esvg.
      * cbn [accessible isPathTag forallb]. rewrite Epath. cbn.
        rewrite forallb_app, Hkids. cbn.
        rewrite andb_true_r. rewrite !andb_true_iff. repeat split.
        apply forallb_forall. intros c Hc.
        apply List.in_map_iff in Hc as (m & <- & _).
        apply (accessible_markerNode intl).
      * cbn [accessible isPathTag]. now rewrite Epath, Hkids.
  - cbn. exact Hkids.
  - cbn. exact Hkids.
Qed.

(** X18 (the call the component makes).  [augment] leaves an element
    whose type is a component and that has no children exactly as it is,
    so the tree the component builds from [<WorldSvg />] is that same
    element for every zoom, pan and marker store: outside safe mode the
    map area shows it, and the error boundary shows the same document
    whether or not it has caught an error. *)
Theorem augment_of_component_element_is_identity (intl : Intl) (s : State) :
  (forall name props,
     Scene.augment intl s (Scene.Element (Scene.Component name) props [])
     = Scene.Element (Scene.Component name) props []) /\
  Scene.augment intl s Scene.worldSvg = Scene.worldSvg /\
  (safeMode s = false ->
   mapView (render intl s) = VectorTree Scene.worldSvg) /\
  Scene.rendered (Scene.svgBoundary false (Scene.augment intl s Scene.worldSvg))
  = Scene.rendered (Scene.svgBoundary true (Scene.augment intl s Scene.worldSvg)).
Proof.
  split; [reflexivity|]. split; [reflexivity|]. split; [|reflexivity].
  intros Hs. cbn. now rewrite Hs.
Qed.

Lemma augment_of_component_element_is_identity_witness :
  mapView
    (render sourceLocale
       (mkState 2 (Point.mk 5 5) false None "" None
                [built 0 1000] false))
  = VectorTree Scene.worldSvg.
Proof.
  apply (augment_of_component_element_is_identity sourceLocale
           (mkState 2 (Point.mk 5 5) false None "" None
                    [built 0 1000] false)).
  reflexivity.
Defined.

Section Root.

Variable intl : Intl.

Lemma markerNode_props (m : Marker.t) :
  let c := Scene.markerNode intl m in
  Scene.propsOf c !! "key" = Some (Scene.Str (Marker.id m)) /\
  Scene.propsOf c !! "cx" = Some (Scene.Num (Marker.x m)) /\
  Scene.propsOf c !! "cy" = Some (Scene.Num (Marker.y m)) /\
  Scene.propsOf c !! "onClick"
  = Some (Scene.Fn (Scene.AnnouncePoint (Marker.name m))) /\
  childrenOf c
  = [Scene.title (formatMessage intl "Point {name}"
                                [("name"%string, Marker.name m)])].
Proof. cbn zeta. repeat split. Qed.

End Root.

(** X19 (the root of the artwork).  For an [svg] element, [augment]
    keeps the type and every prop of the root and gives it one child, a
    group with id ["viewport"] whose transform is the pan and the zoom.
    That group holds the augmented children of the root, in order, and
    after them a group with id ["markers"] holding one circle per marker
    of the store, in store order, each keyed by the marker's id, centred
    on the marker's coordinates and titled with its localized name. *)
Theorem augment_svg_root_structure (intl : Intl) (s : State) (tag : string)
    (props : gmap string Scene.Attr) (kids : list Scene.Node) :
  JS.toLowerCase tag = "svg"%string ->
  exists viewportProps markersProps circles,
    Scene.augment intl s (Scene.Element (Scene.Host tag) props kids)
    = Scene.Element (Scene.Host tag) props
        [Scene.Element (Scene.Host "g") viewportProps
           (filter (fun c => negb (Scene.isNull c))
                   (map (Scene.augment intl s) kids)
            ++ [Scene.Element (Scene.Host "g") markersProps circles])] /\
    viewportProps !! "id" = Some (Scene.Str "viewport") /\
    viewportProps !! "transform"
    = Some (Scene.TransformAttr (Point.x (pan s)) (Point.y (pan s))
                                (zoom s)) /\
    markersProps !! "id" = Some (Scene.Str "markers") /\
    length circles = length (markers s) /\
    Forall2
      (fun m c =>
         elementType c = Some (Scene.Host "circle") /\
         Scene.propsOf c !! "key" = Some (Scene.Str (Marker.id m)) /\
         Scene.propsOf c !! "cx" = Some (Scene.Num (Marker.x m)) /\
         Scene.propsOf c !! "cy" = Some (Scene.Num (Marker.y m)) /\
         Scene.propsOf c !! "onClick"
         = Some (Scene.Fn (Scene.AnnouncePoint (Marker.name m))) /\
         childrenOf c
         = [Scene.title (formatMessage intl "Point {name}"
                                       [("name"%string, Marker.name m)])])
      (markers s) circles.
Proof.
  intros Htag.
  exists (<["id" := Scene.Str "viewport"]>
            (<["transform" :=
                 Scene.TransformAttr (Point.x (pan s)) (Point.y (pan s))
                                     (zoom s)]> ∅)),
         (<["id" := Scene.Str "markers"]> ∅),
         (map (Scene.markerNode intl) (markers s)).
  split; [cbn [Scene.augment]; rewrite Htag; reflexivity|].
  split; [reflexivity|]. split; [reflexivity|]. split; [reflexivity|].
  split; [apply List.length_map|].
  induction (markers s) as [|m ms IH]; cbn [map]; constructor; [|exact IH].
  split; [reflexivity|]. apply markerNode_props.
Qed.

Lemma augment_svg_root_structure_witness :
  exists child,
    childrenOf
      (Scene.augment sourceLocale
         (addMarkerAtCenter 1000 None initialState)
         (Scene.Element (Scene.Host "svg") ∅
            [Scene.Element (Scene.Host "path") ∅ []]))
    = [child] /\
    Scene.propsOf child !! "id" = Some (Scene.Str "viewport").
Proof.
  destruct (augment_svg_root_structure sourceLocale
              (addMarkerAtCenter 1000 None initialState) "svg" ∅
              [Scene.Element (Scene.Host "path") ∅ []] eq_refl)
    as (vp & mp & circles & Hout & Hid & _).
  rewrite Hout. eexists. split; [reflexivity | exact Hid].
Defined.

(** X20 (what the augmenter leaves alone).  [augment] returns text and
    [null] as they are and never changes the type of an element.  It
    changes the props of [path] elements only, and there only the three
    handlers [onClick], [onMouseEnter] and [onMouseLeave]: every other
    prop of a path, and every prop of any other element, the root
    included, comes out as it went in. *)
Theorem augment_keeps_types_and_props (intl : Intl) (s : State) :
  (forall v, Scene.augment intl s (Scene.Text v) = Scene.Text v) /\
  Scene.augment intl s Scene.Null = Scene.Null /\
  (forall n, elementType (Scene.augment intl s n) = elementType n) /\
  (forall type props kids,
     isPathTag type = false ->
     Scene.propsOf (Scene.augment intl s (Scene.Element type props kids))
     = props) /\
  (forall n key,
     ~ In key ["onClick"; "onMouseEnter"; "onMouseLeave"]%string ->
     Scene.propsOf (Scene.augment intl s n) !! key
     = Scene.propsOf n !! key).
Proof.
  assert (Hshape : forall type props kids,
             exists props' kids',
               Scene.augment intl s (Scene.Element type props kids)
               = Scene.Element type props' kids' /\
               (isPathTag type = false -> props' = props) /\
               (forall key,
                  ~ In key ["onClick"; "onMouseEnter"; "onMouseLeave"]%string ->
                  props' !! key = props !! key)).
  { intros type props kids. cbn [Scene.augment].
    destruct type as [tag|name|]; cbn [isPathTag].
    - destruct (String.eqb (JS.toLowerCase tag) "path") eqn:Epath.
      + do 2 eexists. split; [reflexivity|]. split; [discriminate|].
        intros key Hkey. unfold Scene.pathProps.
        rewrite !lookup_insert_ne; [reflexivity| | |];
          intros <-; apply Hkey; cbn; tauto.
      + do 2 eexists. split; [reflexivity|]. now split.
    - do 2 eexists. split; [reflexivity|]. now split.
    - do 2 eexists. split; [reflexivity|]. now split. }
  split; [reflexivity|]. split; [reflexivity|]. split; [|split].
  - intros [v| |type props kids]; try reflexivity.
    destruct (Hshape type props kids) as (p & k & -> & _). reflexivity.
  - intros type props kids Hnot.
    destruct (Hshape type props kids) as (p & k & -> & Hp & _).
    cbn. now apply Hp.
  - intros [v| |type props kids] key Hkey; try reflexivity.
    destruct (Hshape type props kids) as (p & k & -> & _ & Hp).
    cbn. now apply Hp.
Qed.

Lemma augment_keeps_types_and_props_witness :
  Scene.propsOf
    (Scene.augment sourceLocale initialState
       (Scene.Element (Scene.Host "path")
          (<["d" := Scene.Str "M0 0L1 1"]> ∅) []))
  !! "d" = Some (Scene.Str "M0 0L1 1").
Proof.
  destruct (augment_keeps_types_and_props sourceLocale initialState)
    as (_ & _ & _ & _ & H).
  rewrite H; [reflexivity|].
  cbn. intros Hin.
  repeat (destruct Hin as [Hin|Hin]; [discriminate Hin|]). exact Hin.
Defined.

(** ** The object URL, for every answer of the browser *)

(** X21 (when the object URL is released).  On the serialization path,
    with an [<svg>] in the container, the export creates exactly one
    object URL, after serializing the clone stamped with the container's
    width and height.  The URL is revoked, once and before any upload,
    exactly when the image decodes: a missing context or a failed
    encoding still releases it, a decode error never does. *)
Theorem object_url_released_iff_image_decodes (intl : Intl)
    (env : ExportIO.Env) (s : State) (rect : DOMRect) (vb : ViewBox) :
  safeMode s = false ->
  ExportIO.container env = Some (rect, Some vb) ->
  let tr := ExportIO.trace (Pipeline.addCurrentViewToDesign intl env s) in
  let creates f :=
    match f with ExportIO.CreateObjectURL => true | _ => false end in
  let revokes f :=
    match f with ExportIO.RevokeObjectURL => true | _ => false end in
  (exists rest,
     tr = ExportIO.SerializeSvg (width rect) (height rect)
          :: ExportIO.CreateObjectURL :: rest /\
     length (List.filter creates rest) = 0%nat /\
     (ExportIO.imageDecodes env = true ->
      exists after,
        rest = ExportIO.RevokeObjectURL :: after /\
        length (List.filter revokes after) = 0%nat) /\
     (ExportIO.imageDecodes env = false -> rest = [])) /\
  (Pipeline.released tr = true <-> ExportIO.imageDecodes env = true).
Proof.
  intros Hs Hc. cbn zeta.
  unfold Pipeline.addCurrentViewToDesign, Pipeline.rasterVector,
    Pipeline.drawVector, Pipeline.uploadAndAdd, ExportIO.loadImage.
  rewrite Hs.
  destruct env as [c dec ctx enc up add]. cbn in Hc. subst c.
  cbn [ExportIO.container ExportIO.imageDecodes ExportIO.context2d
       ExportIO.encodes ExportIO.uploadOk ExportIO.addElementOk].
  destruct dec, ctx, enc, up, add; cbn;
    (split;
     [ eexists; split; [reflexivity|]; split; [reflexivity|]; split;
       [ intros H; try discriminate H; eexists; split; reflexivity
       | intros H; try discriminate H; reflexivity ]
     | split; intros H; try discriminate H; reflexivity ]).
Qed.

Lemma object_url_released_iff_image_decodes_witness :
  Pipeline.released
    (ExportIO.trace
       (Pipeline.addCurrentViewToDesign sourceLocale
          (ExportIO.mkEnv
             (Some (mkRect 0 0 640 480, Some (mkViewBox 0 0 800 400)))
             true false true true true)
          (mkState 1 (Point.mk 0 0) false None "" None [] false)))
  = true.
Proof.
  apply (object_url_released_iff_image_decodes sourceLocale
           (ExportIO.mkEnv
              (Some (mkRect 0 0 640 480, Some (mkViewBox 0 0 800 400)))
              true false true true true)
           (mkState 1 (Point.mk 0 0) false None "" None [] false)
           (mkRect 0 0 640 480) (mkViewBox 0 0 800 400) eq_refl eq_refl).
  reflexivity.
Defined.

(** ** The zoom in reachable states *)

(** X22 (the zoom is always usable).  In every reachable state the zoom
    is in [[0.2, 5]], hence positive: for the handler of a render that
    shows such a state the quotient [newZoom / zoom] divides by a
    positive number and is positive, and the wheel events handled in
    that render leave the zoom in range. *)
Theorem reachable_zoom_in_range (intl : Intl) (s : State) :
  reachable intl s ->
  zoomInRange (zoom s) /\ 0 < zoom s /\
  (forall dY, 0 < wheelNewZoom (zoom s) dY / zoom s) /\
  (forall inputs, zoomInRange (zoom (onWheels inputs s))).
Proof.
  intros Hr.
  assert (Hz : zoomInRange (zoom s)).
  { induction Hr as [|ev s Hr IH]; [split; discriminate|].
    now apply step_zoom_range. }
  assert (Hpos : 0 < zoom s) by (destruct Hz; lra).
  split; [exact Hz|]. split; [exact Hpos|]. split.
  - intros dY. pose proof (wheel_zoom_positive (zoom s) dY) as Hnew.
    apply Qlt_shift_div_l; lra.
  - intros inputs. now apply onWheels_zoom_range.
Qed.

Lemma reachable_zoom_in_range_witness :
  zoomInRange
    (zoom (run sourceLocale
               [KeyDown "-";
                Wheels [(Some (mkRect 0 0 800 300), mkWheel 10 10 4);
                        (Some (mkRect 0 0 800 300), mkWheel 10 10 4)];
                KeyDown "_"]
               initialState)).
Proof.
  apply (reachable_zoom_in_range sourceLocale).
  apply run_reachable. constructor.
Defined.
